(** * libsmu: the userspace access layer of the ryzen_smu driver

    A shallow embedding of [lib/libsmu.c] and the properties of its
    discovery step, its register and command exchanges and its table read.

    The library is a sequence of system calls on the driver's pseudo-files.
    The kernel is a parameter: an arbitrary state type with arbitrary
    transition functions for [open], [read], [write], [lseek] and [close].
    Every library function runs in a small state-and-log monad that threads
    the kernel state and records each call together with its result.

    The target is the one the driver runs on: x86-64 Linux, LP64,
    little-endian, glibc, and a compiler that wraps signed shifts and
    represents an enumeration without negative enumerators as
    [unsigned int]. *)

From Stdlib Require Import ZArith List Lia Bool.
From Stdlib.Strings Require Import Byte.
Import ListNotations.
Open Scope Z_scope.

(** ** Machine integers (x86-64, LP64) *)

Module CInt.

(** Conversion to [unsigned int]. *)
Definition uint32 (z : Z) : Z := z mod 2 ^ 32.

(** Conversion to [int], two's complement wrap-around. *)
Definition sint32 (z : Z) : Z := (z + 2 ^ 31) mod 2 ^ 32 - 2 ^ 31.

Definition LONG_MAX : Z := 2 ^ 63 - 1.
Definition LONG_MIN : Z := - 2 ^ 63.

(** [strtol] saturates at the ends of [long]. *)
Definition clamp_long (z : Z) : Z := Z.max LONG_MIN (Z.min LONG_MAX z).

(** [x << n] on [int]: the bits that leave the word are lost. *)
Definition int_shl (x n : Z) : Z := sint32 (Z.shiftl x n).

(** [x | y] on [int]. *)
Definition int_or (x y : Z) : Z := Z.lor x y.

End CInt.
Import CInt.

(** ** Bytes and objects in memory *)

Definition byte_val (b : byte) : Z := Z.of_N (Byte.to_N b).

Definition byte_of_Z (z : Z) : byte :=
  match Byte.of_N (Z.to_N (z mod 256)) with
  | Some b => b
  | None => x00
  end.

(** Little-endian object representation, as on every processor the driver
    supports. *)
Fixpoint le_decode (bs : list byte) : Z :=
  match bs with
  | [] => 0
  | b :: r => byte_val b + 256 * le_decode r
  end.

Fixpoint le_encode (n : nat) (z : Z) : list byte :=
  match n with
  | O => []
  | S n' => byte_of_Z z :: le_encode n' (z / 256)
  end.

(** [blit data buf]: the buffer after [data] has been copied to its start. *)
Definition blit (data buf : list byte) : list byte :=
  data ++ skipn (length data) buf.

(** A 32-bit object holding [old] after [data] has been copied over its
    first bytes. *)
Definition poke32 (old : Z) (data : list byte) : Z :=
  le_decode (firstn 4 (blit data (le_encode 4 old))).

(** The string a [char] buffer holds: the bytes before the first NUL. *)
Fixpoint c_str (buf : list byte) : list byte :=
  match buf with
  | [] => []
  | b :: r => if Byte.eqb b x00 then [] else b :: c_str r
  end.

(** ** The C library functions the source calls *)

Module Libc.

Definition EOF : Z := -1.

Definition isspace (b : byte) : bool :=
  let c := byte_val b in (c =? 32) || ((9 <=? c) && (c <=? 13)).

Definition isdigit (b : byte) : bool :=
  let c := byte_val b in (48 <=? c) && (c <=? 57).

Fixpoint skip_space (s : list byte) : list byte :=
  match s with
  | [] => []
  | b :: r => if isspace b then skip_space r else s
  end.

(** The longest prefix of decimal digits, and what follows it. *)
Fixpoint span_digits (s : list byte) : list byte * list byte :=
  match s with
  | [] => ([], [])
  | b :: r =>
      if isdigit b
      then let '(ds, rest) := span_digits r in (b :: ds, rest)
      else ([], s)
  end.

Definition digits_val (ds : list byte) : Z :=
  fold_left (fun acc d => 10 * acc + (byte_val d - 48)) ds 0.

(** An optional sign: whether it was a minus, and what follows it. *)
Definition take_sign (s : list byte) : bool * list byte :=
  match s with
  | b :: r =>
      if Byte.eqb b "-"%byte then (true, r)
      else if Byte.eqb b "+"%byte then (false, r)
      else (false, s)
  | [] => (false, s)
  end.

Definition signed (neg : bool) (v : Z) : Z := if neg then - v else v.

(** [strtol(s, NULL, 10)]: zero when no digits are found. *)
Definition strtol10 (s : list byte) : Z :=
  let '(neg, s1) := take_sign (skip_space s) in
  let '(ds, _) := span_digits s1 in
  match ds with
  | [] => 0
  | _ => clamp_long (signed neg (digits_val ds))
  end.

(** glibc: [atoi(s)] is [(int) strtol(s, NULL, 10)]. *)
Definition atoi (s : list byte) : Z := sint32 (strtol10 s).

(** One [%d] conversion of [sscanf]. *)
Inductive conversion : Type :=
| Converted (v : Z) (rest : list byte)
| MatchingFailure
| InputFailure.

Definition scan_d (s : list byte) : conversion :=
  match skip_space s with
  | [] => InputFailure
  | s0 =>
      let '(neg, s1) := take_sign s0 in
      let '(ds, rest) := span_digits s1 in
      match ds with
      | [] => MatchingFailure
      | _ => Converted (sint32 (clamp_long (signed neg (digits_val ds)))) rest
      end
  end.

(** An ordinary character of the format matches itself only. *)
Definition expect (c : byte) (s : list byte) : option (list byte) :=
  match s with
  | b :: r => if Byte.eqb b c then Some r else None
  | [] => None
  end.

(** [sscanf(s, "%d.%d.%d\n", &a, &b, &c)]: the return value and the values
    assigned, in order.  The return value is [EOF] when the input ends
    before the first conversion, else the number of assignments; the
    trailing white space of the format cannot change it. *)
Definition sscanf_d_d_d (s : list byte) : Z * list Z :=
  match scan_d s with
  | InputFailure => (EOF, [])
  | MatchingFailure => (0, [])
  | Converted a r1 =>
      match expect "."%byte r1 with
      | None => (1, [a])
      | Some r2 =>
          match scan_d r2 with
          | Converted b r3 =>
              match expect "."%byte r3 with
              | None => (2, [a; b])
              | Some r4 =>
                  match scan_d r4 with
                  | Converted c _ => (3, [a; b; c])
                  | _ => (2, [a; b])
                  end
              end
          | _ => (1, [a])
          end
      end
  end.

End Libc.
Import Libc.

(** ** System calls, their log, and the kernel *)

(** The pseudo-files of [DRIVER_CLASS_PATH]. *)
Inductive path : Type :=
| VERSION_PATH | CODENAME_PATH
| SMN_PATH | SMU_ARG_PATH | SMU_CMD_PATH
| PM_VERSION_PATH | PM_SIZE_PATH | PM_PATH.

Inductive oflag : Type := O_RDONLY | O_RDWR.

(** A call as the source writes it.  Calls on a descriptor also name the file
    that the descriptor variable stands for in the source ([tmp_fd] after
    [try_open_path(VERSION_PATH, ...)], [obj->fd_smn] for [SMN_PATH], ...);
    the kernel never sees that name. *)
Inductive call : Type :=
| c_open (p : path) (fl : oflag)
| c_close (p : path) (fd : Z)
| c_lseek (p : path) (fd : Z) (off : Z)
| c_read (p : path) (fd : Z) (count : Z)
| c_write (p : path) (fd : Z) (data : list byte)
| c_mutex_init (i : Z)
| c_mutex_lock (i : Z)
| c_mutex_unlock (i : Z)
| c_mutex_destroy (i : Z).

(** A call, the value it returned, and for [read] the bytes it delivered. *)
Record event : Type := Ev { ev_call : call; ev_ret : Z; ev_data : list byte }.

(** The kernel: any state, any behaviour.  [k_read] answers [None] for a
    failed read and otherwise the bytes available, of which at most [count]
    are delivered; [k_write] answers [None] for a failed write and otherwise
    how many bytes it would accept. *)
Record kernel (K : Type) : Type := {
  k_open : path -> oflag -> K -> Z * K;
  k_close : Z -> K -> K;
  k_lseek : Z -> Z -> K -> K;
  k_read : Z -> Z -> K -> option (list byte) * K;
  k_write : Z -> list byte -> K -> option nat * K
}.
Arguments k_open {K}.
Arguments k_close {K}.
Arguments k_lseek {K}.
Arguments k_read {K}.
Arguments k_write {K}.

(** What [read(fd, buf, count)] returns and stores at the start of [buf]. *)
Definition read_ret (r : option (list byte)) (count : Z) : Z * list byte :=
  match r with
  | None => (-1, [])
  | Some bs =>
      let d := firstn (Z.to_nat count) bs in (Z.of_nat (length d), d)
  end.

(** What [write(fd, buf, len)] returns. *)
Definition write_ret (r : option nat) (len : nat) : Z :=
  match r with
  | None => -1
  | Some m => Z.of_nat (Nat.min m len)
  end.

(** Computations: kernel state in; value, kernel state and log out. *)
Definition M (K A : Type) : Type := K -> A * K * list event.

Definition ret {K A} (a : A) : M K A := fun s => (a, s, []).

Definition bind {K A B} (m : M K A) (f : A -> M K B) : M K B :=
  fun s =>
    let '(a, s1, e1) := m s in
    let '(b, s2, e2) := f a s1 in
    (b, s2, e1 ++ e2).

Notation "x <- m ;; k" := (bind m (fun x => k))
  (at level 61, m at next level, right associativity).
Notation "' pat <- m ;; k" := (bind m (fun x => match x with pat => k end))
  (at level 61, pat pattern, m at next level, right associativity).
Notation "m ;;; k" := (bind m (fun _ => k))
  (at level 61, right associativity).

Definition value {K A} (r : A * K * list event) : A := fst (fst r).
Definition final {K A} (r : A * K * list event) : K := snd (fst r).
Definition events {K A} (r : A * K * list event) : list event := snd r.

(** ** The declarations of [libsmu.h] *)

(** [libsmu.h] is not among the sources.  The enumerators, the mutex indices
    and the size of the argument array it declares are parameters of the
    development; the functions below never depend on their values. *)
Record libsmu_h : Type := {
  SMU_Return_OK : Z;
  SMU_Return_Unsupported : Z;
  SMU_Return_InsufficientSize : Z;
  SMU_Return_DriverNotPresent : Z;
  SMU_Return_RWError : Z;
  CODENAME_UNDEFINED : Z;
  CODENAME_COUNT : Z;
  SMU_MUTEX_SMN : Z;
  SMU_MUTEX_CMD : Z;
  SMU_MUTEX_PM : Z;
  SMU_MUTEX_COUNT : Z;
  (** [sizeof(args.args)] for [smu_arg_t args]. *)
  sizeof_args : Z
}.

(** Modelled from the spec: the session structure [smu_obj_t] of [libsmu.h],
    with the fields the source reads and writes.  The 32-bit attributes are
    unsigned; [codename] has an enumerated type without negative enumerators,
    which the compiler represents as [unsigned int].  The [lock] array is
    left out: the mutex calls are recorded in the log. *)
Record smu_obj_t : Type := {
  init : Z;
  codename : Z;
  smu_version : Z;
  pm_table_size : Z;
  pm_table_version : Z;
  fd_smn : Z;
  fd_smu_cmd : Z;
  fd_smu_args : Z;
  fd_pm_table : Z
}.

(** [memset(obj, 0, sizeof( *obj))]. *)
Definition smu_obj_zero : smu_obj_t :=
  {| init := 0; codename := 0; smu_version := 0;
     pm_table_size := 0; pm_table_version := 0;
     fd_smn := 0; fd_smu_cmd := 0; fd_smu_args := 0; fd_pm_table := 0 |}.

Definition set_init (o : smu_obj_t) (v : Z) : smu_obj_t :=
  {| init := v; codename := codename o; smu_version := smu_version o;
     pm_table_size := pm_table_size o; pm_table_version := pm_table_version o;
     fd_smn := fd_smn o; fd_smu_cmd := fd_smu_cmd o;
     fd_smu_args := fd_smu_args o; fd_pm_table := fd_pm_table o |}.

Definition set_codename (o : smu_obj_t) (v : Z) : smu_obj_t :=
  {| init := init o; codename := v; smu_version := smu_version o;
     pm_table_size := pm_table_size o; pm_table_version := pm_table_version o;
     fd_smn := fd_smn o; fd_smu_cmd := fd_smu_cmd o;
     fd_smu_args := fd_smu_args o; fd_pm_table := fd_pm_table o |}.

Definition set_smu_version (o : smu_obj_t) (v : Z) : smu_obj_t :=
  {| init := init o; codename := codename o; smu_version := v;
     pm_table_size := pm_table_size o; pm_table_version := pm_table_version o;
     fd_smn := fd_smn o; fd_smu_cmd := fd_smu_cmd o;
     fd_smu_args := fd_smu_args o; fd_pm_table := fd_pm_table o |}.

Definition set_pm_table_size (o : smu_obj_t) (v : Z) : smu_obj_t :=
  {| init := init o; codename := codename o; smu_version := smu_version o;
     pm_table_size := v; pm_table_version := pm_table_version o;
     fd_smn := fd_smn o; fd_smu_cmd := fd_smu_cmd o;
     fd_smu_args := fd_smu_args o; fd_pm_table := fd_pm_table o |}.

Definition set_pm_table_version (o : smu_obj_t) (v : Z) : smu_obj_t :=
  {| init := init o; codename := codename o; smu_version := smu_version o;
     pm_table_size := pm_table_size o; pm_table_version := v;
     fd_smn := fd_smn o; fd_smu_cmd := fd_smu_cmd o;
     fd_smu_args := fd_smu_args o; fd_pm_table := fd_pm_table o |}.

Definition set_fd_smn (o : smu_obj_t) (v : Z) : smu_obj_t :=
  {| init := init o; codename := codename o; smu_version := smu_version o;
     pm_table_size := pm_table_size o; pm_table_version := pm_table_version o;
     fd_smn := v; fd_smu_cmd := fd_smu_cmd o;
     fd_smu_args := fd_smu_args o; fd_pm_table := fd_pm_table o |}.

Definition set_fd_smu_cmd (o : smu_obj_t) (v : Z) : smu_obj_t :=
  {| init := init o; codename := codename o; smu_version := smu_version o;
     pm_table_size := pm_table_size o; pm_table_version := pm_table_version o;
     fd_smn := fd_smn o; fd_smu_cmd := v;
     fd_smu_args := fd_smu_args o; fd_pm_table := fd_pm_table o |}.

Definition set_fd_smu_args (o : smu_obj_t) (v : Z) : smu_obj_t :=
  {| init := init o; codename := codename o; smu_version := smu_version o;
     pm_table_size := pm_table_size o; pm_table_version := pm_table_version o;
     fd_smn := fd_smn o; fd_smu_cmd := fd_smu_cmd o;
     fd_smu_args := v; fd_pm_table := fd_pm_table o |}.

Definition set_fd_pm_table (o : smu_obj_t) (v : Z) : smu_obj_t :=
  {| init := init o; codename := codename o; smu_version := smu_version o;
     pm_table_size := pm_table_size o; pm_table_version := pm_table_version o;
     fd_smn := fd_smn o; fd_smu_cmd := fd_smu_cmd o;
     fd_smu_args := fd_smu_args o; fd_pm_table := v |}.

(** Maximum is defined as: "255.255.255\n" *)
Definition MAX_SMU_VERSION_LEN : Z := 12.

(** [char rd_buf[1024]] after [memset(rd_buf, 0, sizeof(rd_buf))]. *)
Definition rd_buf0 : list byte := repeat x00 1024.

(** ** The library *)

Section Libsmu.

Context {K : Type} (kern : kernel K) (h : libsmu_h).

(** *** System calls *)

Definition sys_open (p : path) (fl : oflag) : M K Z :=
  fun s =>
    let '(fd, s') := k_open kern p fl s in
    (fd, s', [Ev (c_open p fl) fd []]).

Definition sys_close (p : path) (fd : Z) : M K unit :=
  fun s => (tt, k_close kern fd s, [Ev (c_close p fd) 0 []]).

(** [lseek(fd, off, SEEK_SET)]; the source ignores what it returns. *)
Definition sys_lseek (p : path) (fd off : Z) : M K unit :=
  fun s => (tt, k_lseek kern fd off s, [Ev (c_lseek p fd off) 0 []]).

(** [read(fd, buf, count)]: the return value and the bytes stored at the
    start of [buf]. *)
Definition sys_read (p : path) (fd count : Z) : M K (Z * list byte) :=
  fun s =>
    let '(r, s') := k_read kern fd count s in
    let '(n, data) := read_ret r count in
    ((n, data), s', [Ev (c_read p fd count) n data]).

(** [write(fd, data, sizeof data)]. *)
Definition sys_write (p : path) (fd : Z) (data : list byte) : M K Z :=
  fun s =>
    let '(r, s') := k_write kern fd data s in
    let n := write_ret r (length data) in
    (n, s', [Ev (c_write p fd data) n []]).

Definition mutex_init (i : Z) : M K unit :=
  fun s => (tt, s, [Ev (c_mutex_init i) 0 []]).

Definition mutex_lock (i : Z) : M K unit :=
  fun s => (tt, s, [Ev (c_mutex_lock i) 0 []]).

Definition mutex_unlock (i : Z) : M K unit :=
  fun s => (tt, s, [Ev (c_mutex_unlock i) 0 []]).

(** [for (i = 0; i < n; i++) body(i);] *)
Fixpoint for_upto (todo : nat) (i : Z) (body : Z -> M K unit) : M K unit :=
  match todo with
  | O => ret tt
  | S todo' => body i ;;; for_upto todo' (i + 1) body
  end.

(** *** [try_open_path]: whether the open succeeded, and [*fd]. *)
Definition try_open_path (pathname : path) (mode : oflag) : M K (bool * Z) :=
  fd <- sys_open pathname mode ;;
  ret (negb (fd =? -1), fd).

(** *** [smu_init_parse] *)
Definition smu_init_parse (obj : smu_obj_t) : M K (Z * smu_obj_t) :=
  let rd_buf := rd_buf0 in
  (* The version of the SMU **MUST** be present. *)
  '(ok, tmp_fd) <- try_open_path VERSION_PATH O_RDONLY ;;
  if negb ok then ret (SMU_Return_DriverNotPresent h, obj) else
  '(n, data) <- sys_read VERSION_PATH tmp_fd MAX_SMU_VERSION_LEN ;;
  let rd_buf := blit data rd_buf in
  sys_close VERSION_PATH tmp_fd ;;;
  if sint32 n <? 0 then ret (SMU_Return_RWError h, obj) else
  let '(r, vals) := sscanf_d_d_d (c_str rd_buf) in
  if (r =? EOF) || (r <? 3) then ret (SMU_Return_RWError h, obj) else
  (* three values were assigned *)
  let ver_maj := nth 0 vals 0 in
  let ver_min := nth 1 vals 0 in
  let ver_rev := nth 2 vals 0 in
  let obj :=
    set_smu_version obj
      (uint32 (int_or (int_or (int_shl ver_maj 24) (int_shl ver_min 8))
                      ver_rev)) in
  (* Codename must also be present. *)
  '(ok, tmp_fd) <- try_open_path CODENAME_PATH O_RDONLY ;;
  if negb ok then ret (SMU_Return_DriverNotPresent h, obj) else
  '(n, data) <- sys_read CODENAME_PATH tmp_fd 3 ;;
  let rd_buf := blit data rd_buf in
  sys_close CODENAME_PATH tmp_fd ;;;
  if sint32 n <? 0 then ret (SMU_Return_RWError h, obj) else
  let obj := set_codename obj (uint32 (atoi (c_str rd_buf))) in
  if (codename obj <=? CODENAME_UNDEFINED h)
     || (codename obj >=? CODENAME_COUNT h)
  then ret (SMU_Return_Unsupported h, obj) else
  (* This file doesn't need to exist if PM Tables aren't supported. *)
  '(ok, tmp_fd) <- try_open_path PM_VERSION_PATH O_RDONLY ;;
  if negb ok then ret (SMU_Return_OK h, obj) else
  '(n, data) <- sys_read PM_VERSION_PATH tmp_fd 4 ;;
  let obj := set_pm_table_version obj (poke32 (pm_table_version obj) data) in
  sys_close PM_VERSION_PATH tmp_fd ;;;
  if sint32 n <=? 0 then ret (SMU_Return_RWError h, obj) else
  (* If the PM table contains a version, a size file MUST exist. *)
  '(ok, tmp_fd) <- try_open_path PM_SIZE_PATH O_RDONLY ;;
  if negb ok then ret (SMU_Return_RWError h, obj) else
  '(n, data) <- sys_read PM_SIZE_PATH tmp_fd 4 ;;
  let obj := set_pm_table_size obj (poke32 (pm_table_size obj) data) in
  sys_close PM_SIZE_PATH tmp_fd ;;;
  if sint32 n <=? 0 then ret (SMU_Return_RWError h, obj) else
  ret (SMU_Return_OK h, obj).

(** *** [smu_pm_tables_supported] *)
Definition smu_pm_tables_supported (obj : smu_obj_t) : Z :=
  if negb (pm_table_size obj =? 0) && negb (pm_table_version obj =? 0)
  then 1 else 0.

(** *** [smu_init] *)
Definition smu_init (obj : smu_obj_t) : M K (Z * smu_obj_t) :=
  let obj := smu_obj_zero in
  (* Parse constants: SMU Version, Processor Codename, PM Table Size/Version *)
  '(r, obj) <- smu_init_parse obj ;;
  if negb (r =? SMU_Return_OK h) then ret (r, obj) else
  (* The driver must provide access to these files. *)
  '(ok, fd) <- try_open_path SMN_PATH O_RDWR ;;
  let obj := set_fd_smn obj fd in
  if negb ok then ret (SMU_Return_RWError h, obj) else
  '(ok, fd) <- try_open_path SMU_CMD_PATH O_RDWR ;;
  let obj := set_fd_smu_cmd obj fd in
  if negb ok then ret (SMU_Return_RWError h, obj) else
  '(ok, fd) <- try_open_path SMU_ARG_PATH O_RDWR ;;
  let obj := set_fd_smu_args obj fd in
  if negb ok then ret (SMU_Return_RWError h, obj) else
  (* This file may optionally exist only if PM tables are supported. *)
  '(failed, obj) <-
    (if negb (smu_pm_tables_supported obj =? 0)
     then '(ok, fd) <- try_open_path PM_PATH O_RDONLY ;;
          ret (negb ok, set_fd_pm_table obj fd)
     else ret (false, obj)) ;;
  if (failed : bool) then ret (SMU_Return_RWError h, obj) else
  for_upto (Z.to_nat (SMU_MUTEX_COUNT h)) 0 mutex_init ;;;
  let obj := set_init obj 1 in
  ret (SMU_Return_OK h, obj).

(** *** [smu_read_smn_addr]: the return value and [*result]. *)
Definition smu_read_smn_addr (obj : smu_obj_t) (address result : Z)
  : M K (Z * Z) :=
  mutex_lock (SMU_MUTEX_SMN h) ;;;
  sys_lseek SMN_PATH (fd_smn obj) 0 ;;;
  n <- sys_write SMN_PATH (fd_smn obj) (le_encode 4 address) ;;
  '(r, result) <-
    (if negb (uint32 n =? 4)
     then (* goto BREAK_OUT *) ret (uint32 n, result)
     else
       sys_lseek SMN_PATH (fd_smn obj) 0 ;;;
       '(n, data) <- sys_read SMN_PATH (fd_smn obj) 4 ;;
       ret (uint32 n, poke32 result data)) ;;
  (* BREAK_OUT: *)
  mutex_unlock (SMU_MUTEX_SMN h) ;;;
  ret (if r =? 4 then SMU_Return_OK h else SMU_Return_RWError h, result).

(** *** [smu_write_smn_addr] *)
Definition smu_write_smn_addr (obj : smu_obj_t) (address value : Z)
  : M K Z :=
  let buffer := le_encode 4 address ++ le_encode 4 value in
  mutex_lock (SMU_MUTEX_SMN h) ;;;
  sys_lseek SMN_PATH (fd_smn obj) 0 ;;;
  n <- sys_write SMN_PATH (fd_smn obj) buffer ;;
  mutex_unlock (SMU_MUTEX_SMN h) ;;;
  ret (if uint32 n =? 8 then SMU_Return_OK h else SMU_Return_RWError h).

(** *** [smu_send_command]

    [args] is the object representation of the [smu_arg_t] passed by
    value, so [sizeof(args)] is its length.  The block read back lands in
    that local copy and is lost on return. *)
Definition smu_send_command (obj : smu_obj_t) (op : Z) (args : list byte)
  : M K Z :=
  mutex_lock (SMU_MUTEX_CMD h) ;;;
  sys_lseek SMU_ARG_PATH (fd_smu_args obj) 0 ;;;
  n <- sys_write SMU_ARG_PATH (fd_smu_args obj) args ;;
  r <-
    (if negb (uint32 n =? Z.of_nat (length args))
     then (* goto BREAK_OUT *) ret (SMU_Return_RWError h)
     else
       sys_lseek SMU_CMD_PATH (fd_smu_cmd obj) 0 ;;;
       n <- sys_write SMU_CMD_PATH (fd_smu_cmd obj) (le_encode 4 op) ;;
       if negb (uint32 n =? 4)
       then (* goto BREAK_OUT *) ret (SMU_Return_RWError h)
       else
         sys_lseek SMU_CMD_PATH (fd_smu_cmd obj) 0 ;;;
         '(n, data) <- sys_read SMU_CMD_PATH (fd_smu_cmd obj) 4 ;;
         (* [status] is used only after all 4 of its bytes were read,
            so what it held before does not matter *)
         let status := poke32 0 data in
         let r := if negb (uint32 n =? 4)
                  then SMU_Return_RWError h else status in
         if r =? SMU_Return_OK h
         then
           sys_lseek SMU_ARG_PATH (fd_smu_args obj) 0 ;;;
           '(n, data) <- sys_read SMU_ARG_PATH (fd_smu_args obj)
                                  (sizeof_args h) ;;
           (* after a full read-back [ret] holds the byte count *)
           ret (if negb (uint32 n =? sizeof_args h)
                then SMU_Return_RWError h else uint32 n)
         else ret r) ;;
  (* BREAK_OUT: *)
  mutex_unlock (SMU_MUTEX_CMD h) ;;;
  ret r.

(** *** [smu_read_pm_table]: the return value and the bytes at [dst]. *)
Definition smu_read_pm_table (obj : smu_obj_t) (dst : list byte)
    (dst_len : Z) : M K (Z * list byte) :=
  if negb (dst_len =? pm_table_size obj)
  then ret (SMU_Return_InsufficientSize h, dst) else
  mutex_lock (SMU_MUTEX_PM h) ;;;
  sys_lseek PM_PATH (fd_pm_table obj) 0 ;;;
  '(n, data) <- sys_read PM_PATH (fd_pm_table obj) (pm_table_size obj) ;;
  let r := sint32 n in
  let r := if negb (uint32 r =? pm_table_size obj)
           then SMU_Return_RWError h else SMU_Return_OK h in
  mutex_unlock (SMU_MUTEX_PM h) ;;;
  ret (r, blit data dst).

End Libsmu.

(** ** A kernel that replays a script

    The replies of the successive [open], [read] and [write] calls are
    listed in advance; [lseek] and [close] consume nothing.  Any run of the
    library against any kernel is a run against such a script. *)

Inductive reply : Type :=
| r_open (fd : Z)
| r_read (bytes : option (list byte))
| r_write (accepted : option nat).

Definition replay : kernel (list reply) :=
  {| k_open := fun _ _ s =>
       match s with
       | r_open fd :: s' => (fd, s')
       | _ => (-1, s)
       end;
     k_close := fun _ s => s;
     k_lseek := fun _ _ s => s;
     k_read := fun _ _ s =>
       match s with
       | r_read bytes :: s' => (bytes, s')
       | _ => (None, s)
       end;
     k_write := fun _ _ s =>
       match s with
       | r_write accepted :: s' => (accepted, s')
       | _ => (None, s)
       end |}.

(** One instance of the header parameters, for evaluating the library on
    concrete inputs. *)
Definition sample_h : libsmu_h :=
  {| SMU_Return_OK := 0x01;
     SMU_Return_Unsupported := 0xF9;
     SMU_Return_InsufficientSize := 0xF8;
     SMU_Return_DriverNotPresent := 0xF0;
     SMU_Return_RWError := 0xE9;
     CODENAME_UNDEFINED := 0;
     CODENAME_COUNT := 11;
     SMU_MUTEX_SMN := 0;
     SMU_MUTEX_CMD := 1;
     SMU_MUTEX_PM := 2;
     SMU_MUTEX_COUNT := 3;
     sizeof_args := 24 |}.

(** ** The text of the version file *)

Fixpoint decimal_aux (fuel : nat) (n : Z) (acc : list byte) : list byte :=
  match fuel with
  | O => acc
  | S fuel' =>
      let acc' := byte_of_Z (48 + n mod 10) :: acc in
      if n / 10 =? 0 then acc' else decimal_aux fuel' (n / 10) acc'
  end.

(** The decimal numeral of [n], as the driver prints it with [%d]. *)
Definition decimal (n : Z) : list byte := decimal_aux (S (Z.to_nat n)) n [].

(** ["MAJ.MIN.REV\n"] *)
Definition version_text (maj min rev : Z) : list byte :=
  decimal maj ++ "."%byte :: decimal min ++ "."%byte :: decimal rev ++ [x0a].

(** The checks behind the facts used on [decimal]: digits only, the right
    value, one to three characters. *)
Definition decimal_ok (n : Z) : bool :=
  let ds := decimal n in
  forallb isdigit ds && (digits_val ds =? n)
  && (Nat.leb 1 (length ds) && Nat.leb (length ds) 3).

(** ** Sample sessions

    Scripts for the replaying kernel, and the runs of the library on them. *)

(** The codename file holds ["04\n"]. *)
Definition codename_04 : list byte := ["0"%byte; "4"%byte; x0a].

(** Version 1.2.3, codename 4, no table-version file. *)
Definition script_no_table : list reply :=
  [r_open 3; r_read (Some (version_text 1 2 3));
   r_open 3; r_read (Some codename_04);
   r_open (-1)].

(** Version 255.0.17, codename 4; the table files deliver one and two
    bytes. *)
Definition script_short_reads : list reply :=
  [r_open 3; r_read (Some (version_text 255 0 17));
   r_open 3; r_read (Some codename_04);
   r_open 3; r_read (Some [x01]);
   r_open 3; r_read (Some [x00; x10])].

(** The table-version file is there, the table-size file is not. *)
Definition script_no_size : list reply :=
  [r_open 3; r_read (Some (version_text 1 2 3));
   r_open 3; r_read (Some codename_04);
   r_open 3; r_read (Some [x01; x00; x00; x00]);
   r_open (-1)].

(** The table-version file delivers nothing. *)
Definition script_empty_pm_version : list reply :=
  [r_open 3; r_read (Some (version_text 1 2 3));
   r_open 3; r_read (Some codename_04);
   r_open 3; r_read (Some [])].

(** The table-size file delivers nothing. *)
Definition script_empty_pm_size : list reply :=
  [r_open 3; r_read (Some (version_text 1 2 3));
   r_open 3; r_read (Some codename_04);
   r_open 3; r_read (Some [x01; x00; x00; x00]);
   r_open 3; r_read (Some [])].

(** The codename file holds ["11\n"], the count sentinel of [sample_h];
    the channel files are all there. *)
Definition script_codename_11 : list reply :=
  [r_open 3; r_read (Some (version_text 1 2 3));
   r_open 3; r_read (Some ["1"%byte; "1"%byte; x0a]);
   r_open 3; r_open 4; r_open 5; r_open 6].

(** The version file holds ["1.2"]. *)
Definition script_two_fields : list reply :=
  [r_open 3; r_read (Some ["1"%byte; "."%byte; "2"%byte])].

(** A session as [smu_init] leaves it: channels on descriptors 4, 5, 6 and
    the table, 16 bytes long, on 7. *)
Definition sample_obj : smu_obj_t :=
  {| init := 1; codename := 4; smu_version := 0x01000203;
     pm_table_size := 16; pm_table_version := 1;
     fd_smn := 4; fd_smu_cmd := 5; fd_smu_args := 6; fd_pm_table := 7 |}.

Definition sample_args : list byte := repeat x00 24.

Definition run_no_table :=
  smu_init_parse replay sample_h smu_obj_zero script_no_table.

Definition run_short_reads :=
  smu_init_parse replay sample_h smu_obj_zero script_short_reads.

Definition run_no_size :=
  smu_init_parse replay sample_h smu_obj_zero script_no_size.

Definition run_empty_pm_version :=
  smu_init_parse replay sample_h smu_obj_zero script_empty_pm_version.

Definition run_empty_pm_size :=
  smu_init_parse replay sample_h smu_obj_zero script_empty_pm_size.

Definition run_codename_11 :=
  smu_init_parse replay sample_h smu_obj_zero script_codename_11.

Definition run_init_codename_11 :=
  smu_init replay sample_h sample_obj script_codename_11.

Definition run_two_fields :=
  smu_init_parse replay sample_h smu_obj_zero script_two_fields.

(** A table read of length zero on the session of [run_no_table]; the
    [read] of zero bytes on descriptor 0 returns 0. *)
Definition run_table_read_0 :=
  smu_read_pm_table replay sample_h (snd (value run_no_table)) [] 0
    [r_read (Some [])].

(** Version 1.2.3, codename 4, no table-version file; the three channel
    files open on descriptors 4, 5 and 6. *)
Definition script_init_no_table : list reply :=
  [r_open 3; r_read (Some (version_text 1 2 3));
   r_open 3; r_read (Some codename_04);
   r_open (-1); r_open 4; r_open 5; r_open 6].

Definition run_init_no_table :=
  smu_init replay sample_h smu_obj_zero script_init_no_table.

(** The same read on the session [smu_init] builds from that discovery. *)
Definition run_init_table_read_0 :=
  smu_read_pm_table replay sample_h (snd (value run_init_no_table)) [] 0
    [r_read (Some [])].

(** A table read of length 100 on the same session. *)
Definition run_table_read_100 :=
  smu_read_pm_table replay sample_h (snd (value run_no_table))
    (repeat x00 100) 100 [r_read (Some [])].

(** A table read of length 100 where the table is 16 bytes long. *)
Definition run_table_read_mismatch :=
  smu_read_pm_table replay sample_h sample_obj (repeat x00 100) 100
    [r_read (Some (repeat x01 16))].

(** A register read whose address write is cut short after 3 bytes. *)
Definition run_smn_short_write :=
  smu_read_smn_addr replay sample_h sample_obj 0x59800 77
    [r_write (Some 3%nat)].

(** A register read that goes through. *)
Definition run_smn_read :=
  smu_read_smn_addr replay sample_h sample_obj 0x59800 77
    [r_write (Some 4%nat); r_read (Some [x2a; x00; x00; x00])].


(** A command the driver answers with [0x01], the [SMU_Return_OK] of
    [sample_h]; the block read back is cut short after 8 bytes. *)
Definition run_command_short_readback :=
  smu_send_command replay sample_h sample_obj 2 sample_args
    [r_write (Some 24%nat); r_write (Some 4%nat);
     r_read (Some [x01; x00; x00; x00]);
     r_read (Some (repeat x00 8))].

(** ** The rest of the library *)

From Stdlib.Strings Require String.

(** The enumerators of [libsmu.h] that only the naming functions use; like
    those of [libsmu_h] they are parameters. *)
Record libsmu_h_names : Type := {
  SMU_Return_Failed : Z;
  SMU_Return_UnknownCmd : Z;
  SMU_Return_CmdRejectedPrereq : Z;
  SMU_Return_CmdRejectedBusy : Z;
  SMU_Return_CommandTimeout : Z;
  SMU_Return_InvalidArgument : Z;
  SMU_Return_MappedError : Z;
  CODENAME_CASTLEPEAK : Z;
  CODENAME_COLFAX : Z;
  CODENAME_MATISSE : Z;
  CODENAME_PICASSO : Z;
  CODENAME_PINNACLERIDGE : Z;
  CODENAME_RAVENRIDGE2 : Z;
  CODENAME_RAVENRIDGE : Z;
  CODENAME_RENOIR : Z;
  CODENAME_SUMMITRIDGE : Z;
  CODENAME_THREADRIPPER : Z
}.

(** [switch (v) { case k1: return s1; ... default: return d; }] *)
Definition c_switch {A : Type} (cases : list (Z * A)) (default : A) (v : Z)
  : A :=
  match find (fun c => fst c =? v) cases with
  | Some c => snd c
  | None => default
  end.

Module Names.
Import String.
Local Open Scope string_scope.

(** The [case] labels of [smu_return_to_str], in the order of the source. *)
Definition return_cases (h : libsmu_h) (e : libsmu_h_names)
  : list (Z * string) :=
  [(SMU_Return_OK h, "OK");
   (SMU_Return_Failed e, "Failed");
   (SMU_Return_UnknownCmd e, "Unknown Command");
   (SMU_Return_CmdRejectedPrereq e, "Command Rejected - Prerequisite Unmet");
   (SMU_Return_CmdRejectedBusy e, "Command Rejected - Busy");
   (SMU_Return_CommandTimeout e, "Command Timed Out");
   (SMU_Return_InvalidArgument e, "Invalid Argument Specified");
   (SMU_Return_Unsupported h, "Unsupported Platform Or Feature");
   (SMU_Return_InsufficientSize h, "Insufficient Buffer Size Provided");
   (SMU_Return_MappedError e, "Memory Mapping I/O Error");
   (SMU_Return_DriverNotPresent h, "SMU Driver Not Present Or Fault");
   (SMU_Return_RWError h, "Read Or Write Error")].

Definition return_default : string := "Unspecified Error".

(** *** [smu_return_to_str] *)
Definition smu_return_to_str (h : libsmu_h) (e : libsmu_h_names) (val : Z)
  : string :=
  c_switch (return_cases h e) return_default val.

(** The [case] labels of [smu_codename_to_str], in the order of the
    source. *)
Definition codename_cases (e : libsmu_h_names) : list (Z * string) :=
  [(CODENAME_CASTLEPEAK e, "CastlePeak");
   (CODENAME_COLFAX e, "Colfax");
   (CODENAME_MATISSE e, "Matisse");
   (CODENAME_PICASSO e, "Picasso");
   (CODENAME_PINNACLERIDGE e, "Pinnacle Ridge");
   (CODENAME_RAVENRIDGE2 e, "Raven Ridge 2");
   (CODENAME_RAVENRIDGE e, "Raven Ridge");
   (CODENAME_RENOIR e, "Renoir");
   (CODENAME_SUMMITRIDGE e, "Summit Ridge");
   (CODENAME_THREADRIPPER e, "Thread Ripper")].

Definition codename_default : string := "Undefined".

(** *** [smu_codename_to_str] *)
Definition smu_codename_to_str (e : libsmu_h_names) (obj : smu_obj_t)
  : string :=
  c_switch (codename_cases e) codename_default (codename obj).

End Names.
Import Names.

Section LibsmuTeardown.

Context {K : Type} (kern : kernel K) (h : libsmu_h).

Definition mutex_destroy (i : Z) : M K unit :=
  fun s => (tt, s, [Ev (c_mutex_destroy i) 0 []]).

(** [if (fd) close(fd);] *)
Definition close_if_set (p : path) (fd : Z) : M K unit :=
  if negb (fd =? 0) then sys_close kern p fd else ret tt.

(** *** [smu_free]: the session after the call. *)
Definition smu_free (obj : smu_obj_t) : M K smu_obj_t :=
  close_if_set SMN_PATH (fd_smn obj) ;;;
  close_if_set SMU_CMD_PATH (fd_smu_cmd obj) ;;;
  close_if_set SMU_ARG_PATH (fd_smu_args obj) ;;;
  close_if_set PM_PATH (fd_pm_table obj) ;;;
  for_upto (Z.to_nat (SMU_MUTEX_COUNT h)) 0 mutex_destroy ;;;
  ret smu_obj_zero.

End LibsmuTeardown.

(** ** Reading a log *)

Definition calls (evs : list event) : list call := map ev_call evs.

Definition is_mutex_call (c : call) : bool :=
  match c with
  | c_mutex_init _ | c_mutex_lock _ | c_mutex_unlock _ | c_mutex_destroy _ =>
      true
  | _ => false
  end.

(** Every [read] and [write] comes right after an [lseek] to offset 0 on the
    same descriptor. *)
Fixpoint seeks_before_transfers (prev : option call) (cs : list call)
  : bool :=
  match cs with
  | [] => true
  | c :: rest =>
      (match c with
       | c_read p fd _ | c_write p fd _ =>
           match prev with
           | Some (c_lseek p' fd' off) => (fd' =? fd) && (off =? 0)
           | _ => false
           end
       | _ => true
       end) && seeks_before_transfers (Some c) rest
  end.

(** The log starts by locking mutex [g], ends by unlocking it, and makes no
    other mutex call. *)
Definition bracketed (g : Z) (cs : list call) : bool :=
  match cs with
  | c_mutex_lock i :: rest =>
      (i =? g)
      && match rev rest with
         | c_mutex_unlock j :: mid =>
             (j =? g) && forallb (fun c => negb (is_mutex_call c)) mid
         | _ => false
         end
  | _ => false
  end.

Definition is_channel (p : path) : bool :=
  match p with
  | SMN_PATH | SMU_CMD_PATH | SMU_ARG_PATH | PM_PATH => true
  | _ => false
  end.

(** What [open] returned for the channel files, failures included. *)
Fixpoint channel_open_results (evs : list event) : list Z :=
  match evs with
  | [] => []
  | Ev (c_open p _) fd _ :: rest =>
      if is_channel p then fd :: channel_open_results rest
      else channel_open_results rest
  | _ :: rest => channel_open_results rest
  end.

(** The descriptors that [open] returned, failures left out. *)
Fixpoint opened_fds (evs : list event) : list Z :=
  match evs with
  | [] => []
  | Ev (c_open _ _) fd _ :: rest =>
      if fd =? -1 then opened_fds rest else fd :: opened_fds rest
  | _ :: rest => opened_fds rest
  end.

(** The descriptors passed to [close]. *)
Fixpoint closed_fds (evs : list event) : list Z :=
  match evs with
  | [] => []
  | Ev (c_close _ fd) _ _ :: rest => fd :: closed_fds rest
  | _ :: rest => closed_fds rest
  end.

(** The paths that [open] was called on. *)
Fixpoint opened_paths (evs : list event) : list path :=
  match evs with
  | [] => []
  | Ev (c_open p _) _ _ :: rest => p :: opened_paths rest
  | _ :: rest => opened_paths rest
  end.

(** The indices passed to [pthread_mutex_init]. *)
Fixpoint mutex_inits (evs : list event) : list Z :=
  match evs with
  | [] => []
  | Ev (c_mutex_init i) _ _ :: rest => i :: mutex_inits rest
  | _ :: rest => mutex_inits rest
  end.

(** The indices passed to [pthread_mutex_destroy]. *)
Fixpoint mutex_destroys (evs : list event) : list Z :=
  match evs with
  | [] => []
  | Ev (c_mutex_destroy i) _ _ :: rest => i :: mutex_destroys rest
  | _ :: rest => mutex_destroys rest
  end.

(** [i, i+1, ..., i+n-1] *)
Fixpoint count_from (i : Z) (n : nat) : list Z :=
  match n with
  | O => []
  | S n' => i :: count_from (i + 1) n'
  end.

(** [0, 1, ..., n-1] *)
Definition upto (n : Z) : list Z := count_from 0 (Z.to_nat n).

(** The log of one call [c i], returning 0, for each [i] of a list. *)
Definition log_of (c : Z -> call) (l : list Z) : list event :=
  map (fun i => Ev (c i) 0 []) l.

(** The descriptor field of the session that belongs to a channel file. *)
Definition channel_fd (p : path) (obj : smu_obj_t) : Z :=
  match p with
  | SMN_PATH => fd_smn obj
  | SMU_CMD_PATH => fd_smu_cmd obj
  | SMU_ARG_PATH => fd_smu_args obj
  | PM_PATH => fd_pm_table obj
  | _ => 0
  end.

(** The non-zero descriptors of a session, in the order [smu_free] looks at
    them. *)
Definition set_fds (obj : smu_obj_t) : list Z :=
  filter (fun fd => negb (fd =? 0))
    [fd_smn obj; fd_smu_cmd obj; fd_smu_args obj; fd_pm_table obj].

(** ** A driver that loops register writes back

    Modelled from the spec: the driver behind the [smn] file is not among
    the sources.  Per the interface table, a write of 8 bytes stores the
    value (last 4 bytes) at the address (first 4 bytes), a write of 4 bytes
    selects an address, and a read delivers the 4 bytes of the value at the
    selected address; all little-endian. *)
Record smn_state : Type := { selected : Z; regs : Z -> Z }.

Definition smn_store (s : smn_state) (a v : Z) : smn_state :=
  {| selected := selected s;
     regs := fun x => if x =? a then v else regs s x |}.

Definition smn_select (s : smn_state) (a : Z) : smn_state :=
  {| selected := a; regs := regs s |}.

Definition loopback : kernel smn_state :=
  {| k_open := fun _ _ s => (3, s);
     k_close := fun _ s => s;
     k_lseek := fun _ _ s => s;
     k_read := fun _ _ s => (Some (le_encode 4 (regs s (selected s))), s);
     k_write := fun _ data s =>
       if Nat.eqb (length data) 8
       then (Some 8%nat,
             smn_store s (le_decode (firstn 4 data))
                         (le_decode (skipn 4 data)))
       else if Nat.eqb (length data) 4
       then (Some 4%nat, smn_select s (le_decode data))
       else (None, s) |}.

Definition smn_state0 : smn_state :=
  {| selected := 0; regs := fun _ => 0 |}.

(** ** More sample sessions *)

(** One instance of the enumerators of [libsmu_h_names]. *)
Definition sample_names : libsmu_h_names :=
  {| SMU_Return_Failed := 0xFF;
     SMU_Return_UnknownCmd := 0xFE;
     SMU_Return_CmdRejectedPrereq := 0xFD;
     SMU_Return_CmdRejectedBusy := 0xFC;
     SMU_Return_CommandTimeout := 0xFB;
     SMU_Return_InvalidArgument := 0xFA;
     SMU_Return_MappedError := 0xF7;
     CODENAME_CASTLEPEAK := 6;
     CODENAME_COLFAX := 1;
     CODENAME_MATISSE := 4;
     CODENAME_PICASSO := 3;
     CODENAME_PINNACLERIDGE := 10;
     CODENAME_RAVENRIDGE2 := 8;
     CODENAME_RAVENRIDGE := 7;
     CODENAME_RENOIR := 2;
     CODENAME_SUMMITRIDGE := 9;
     CODENAME_THREADRIPPER := 5 |}.

(** A register write that goes through, and one cut short. *)
Definition run_smn_write :=
  smu_write_smn_addr replay sample_h sample_obj 0x59800 42
    [r_write (Some 8%nat)].

Definition run_smn_write_short :=
  smu_write_smn_addr replay sample_h sample_obj 0x59800 42
    [r_write (Some 4%nat)].

(** A register read whose read delivers 2 bytes. *)
Definition run_smn_read_short :=
  smu_read_smn_addr replay sample_h sample_obj 0x59800 0x11223344
    [r_write (Some 4%nat); r_read (Some [xaa; xbb])].

(** A command that goes through: status [0x01], the whole block read
    back. *)
Definition run_command_ok :=
  smu_send_command replay sample_h sample_obj 2 sample_args
    [r_write (Some 24%nat); r_write (Some 4%nat);
     r_read (Some [x01; x00; x00; x00]);
     r_read (Some (repeat x07 24))].

(** Commands cut short at the argument write, at the opcode write and at
    the status read. *)
Definition run_command_short_args :=
  smu_send_command replay sample_h sample_obj 2 sample_args
    [r_write (Some 20%nat)].

Definition run_command_short_op :=
  smu_send_command replay sample_h sample_obj 2 sample_args
    [r_write (Some 24%nat); r_write None].

Definition run_command_short_status :=
  smu_send_command replay sample_h sample_obj 2 sample_args
    [r_write (Some 24%nat); r_write (Some 4%nat); r_read (Some [x01])].

(** Table reads of the right length: one delivers the 16 bytes, one 5. *)
Definition run_table_read_ok :=
  smu_read_pm_table replay sample_h sample_obj (repeat x00 16) 16
    [r_read (Some (repeat x01 16))].

Definition run_table_read_short :=
  smu_read_pm_table replay sample_h sample_obj (repeat x00 16) 16
    [r_read (Some (repeat x01 5))].

(** No version file. *)
Definition run_no_driver :=
  smu_init_parse replay sample_h sample_obj [r_open (-1)].

(** Version 1.2.3, no codename file. *)
Definition run_no_codename :=
  smu_init_parse replay sample_h sample_obj
    [r_open 3; r_read (Some (version_text 1 2 3)); r_open (-1)].

(** Version 4.2.3; the codename read delivers nothing; no table-version
    file. *)
Definition run_empty_codename :=
  smu_init_parse replay sample_h smu_obj_zero
    [r_open 3; r_read (Some (version_text 4 2 3));
     r_open 3; r_read (Some []);
     r_open (-1)].

(** Initialisation with the table files of [script_short_reads] and the
    four channel files on descriptors 4 to 7. *)
Definition run_init_with_table :=
  smu_init replay sample_h smu_obj_zero
    (script_short_reads ++ [r_open 4; r_open 5; r_open 6; r_open 7]).

(** Initialisation where the command channel file cannot be opened. *)
Definition run_init_no_cmd :=
  smu_init replay sample_h smu_obj_zero
    [r_open 3; r_read (Some (version_text 1 2 3));
     r_open 3; r_read (Some codename_04);
     r_open (-1); r_open 4; r_open (-1)].

(** Teardown of the session that run leaves. *)
Definition run_free_no_cmd :=
  smu_free replay sample_h (snd (value run_init_no_cmd))
    (final run_init_no_cmd).

(** A register write then a register read of the same address against the
    loop-back driver. *)
Definition run_loopback_write :=
  smu_write_smn_addr loopback sample_h sample_obj 0x59800 42 smn_state0.

Definition run_loopback_read :=
  smu_read_smn_addr loopback sample_h sample_obj 0x59800 77
    (final run_loopback_write).

(** Version 12.3.4; the codename file holds ["0"], a single byte, the
    undefined sentinel of [sample_h]; there is no table-version file and the
    three channel files open on descriptors 4, 5 and 6. *)
Definition codename_0 : list byte := ["0"%byte].

Definition script_codename_0 : list reply :=
  [r_open 3; r_read (Some (version_text 12 3 4));
   r_open 3; r_read (Some codename_0);
   r_open (-1); r_open 4; r_open 5; r_open 6].

Definition run_codename_0 :=
  smu_init_parse replay sample_h smu_obj_zero script_codename_0.

Definition run_init_codename_0 :=
  smu_init replay sample_h smu_obj_zero script_codename_0.

(** * Properties *)

(** ** Machine integers *)
Lemma two_32 : 2 ^ 32 = 4294967296.
Proof. reflexivity. Qed.

Lemma two_31 : 2 ^ 31 = 2147483648.
Proof. reflexivity. Qed.

Lemma uint32_small (n : Z) : 0 <= n < 2 ^ 32 -> uint32 n = n.
Proof. intros H. unfold uint32. apply Z.mod_small. exact H. Qed.

Lemma uint32_minus_one : uint32 (-1) = 2 ^ 32 - 1.
Proof. reflexivity. Qed.

Lemma uint32_eq_small (n c : Z) :
  -1 <= n -> n <= c -> 0 <= c < 2 ^ 32 - 1 -> (uint32 n = c <-> n = c).
Proof.
  rewrite two_32. intros H1 H2 H3.
  split; [|intros ->; apply uint32_small; rewrite two_32; lia].
  destruct (Z.eq_dec n (-1)) as [->|Hn].
  - rewrite uint32_minus_one, two_32. lia.
  - rewrite uint32_small by (rewrite two_32; lia). auto.
Qed.

Lemma uint32_neg z : - 2 ^ 31 <= z < 0 -> uint32 z = z + 2 ^ 32.
Proof.
  rewrite two_31, two_32. intros H. unfold uint32. rewrite two_32.
  symmetry. apply Z.mod_unique with (q := -1); lia.
Qed.

Lemma sint32_small (n : Z) : - 2 ^ 31 <= n < 2 ^ 31 -> sint32 n = n.
Proof.
  intros H. unfold sint32. rewrite Z.mod_small; [lia|].
  change (2 ^ 32) with (2 * 2 ^ 31). lia.
Qed.

Lemma sint32_range z : - 2 ^ 31 <= sint32 z < 2 ^ 31.
Proof.
  unfold sint32. rewrite two_31, two_32.
  pose proof (Z.mod_pos_bound (z + 2147483648) 4294967296 ltac:(lia)). lia.
Qed.

Lemma uint32_sint32 z : uint32 (sint32 z) = uint32 z.
Proof.
  unfold uint32, sint32. rewrite Zminus_mod_idemp_l.
  f_equal. lia.
Qed.

Lemma uint32_lor x y : uint32 (Z.lor x y) = Z.lor (uint32 x) (uint32 y).
Proof.
  unfold uint32. rewrite <- !Z.land_ones by lia.
  apply Z.land_lor_distr_l.
Qed.

Lemma lor_concat hi lo k :
  0 <= k -> 0 <= lo < 2 ^ k -> Z.lor (hi * 2 ^ k) lo = hi * 2 ^ k + lo.
Proof.
  intros Hk Hlo.
  assert (Hdisj : Z.land (hi * 2 ^ k) lo = 0);
    [|rewrite <- (Z.lxor_lor _ _ Hdisj); symmetry;
      apply Z.add_nocarry_lxor; exact Hdisj].
  apply Z.bits_inj'. intros i Hi.
  rewrite Z.land_spec, Z.bits_0.
  destruct (Z.lt_ge_cases i k) as [Hlt | Hge].
  - rewrite Z.mul_pow2_bits_low by exact Hlt. reflexivity.
  - destruct (Z.eq_dec lo 0) as [-> | Hnz].
    + rewrite Z.bits_0. apply andb_false_r.
    + rewrite (Z.bits_above_log2 lo i); [apply andb_false_r | lia |].
      apply Z.log2_lt_pow2; [lia|].
      apply Z.lt_le_trans with (2 ^ k); [lia|].
      apply Z.pow_le_mono_r; lia.
Qed.

Lemma small_int_conv n : 0 <= n <= 255 -> sint32 (clamp_long n) = n.
Proof.
  intros Hn. unfold clamp_long, LONG_MAX, LONG_MIN.
  rewrite Z.min_r by (change (2 ^ 63 - 1) with 9223372036854775807; lia).
  rewrite Z.max_r by (change (- 2 ^ 63) with (-9223372036854775808); lia).
  apply sint32_small. rewrite two_31. lia.
Qed.

(** ** Bytes and 32-bit objects *)
Lemma byte_val_range b : 0 <= byte_val b < 256.
Proof. unfold byte_val. pose proof (Byte.to_N_bounded b). lia. Qed.

Lemma byte_of_Z_val b z : byte_of_Z (byte_val b + 256 * z) = b.
Proof.
  unfold byte_of_Z. pose proof (byte_val_range b) as Hb.
  replace ((byte_val b + 256 * z) mod 256) with (byte_val b).
  - unfold byte_val. rewrite N2Z.id, Byte.of_to_N. reflexivity.
  - apply Z.mod_unique with (q := z); lia.
Qed.

Lemma length_le_encode n z : length (le_encode n z) = n.
Proof. revert z. induction n; simpl; intros; [reflexivity|]. now rewrite IHn. Qed.

Lemma le_encode_decode bs : le_encode (length bs) (le_decode bs) = bs.
Proof.
  induction bs as [|b bs IH]; cbn [le_encode le_decode length];
    [reflexivity|].
  rewrite byte_of_Z_val. f_equal.
  replace ((byte_val b + 256 * le_decode bs) / 256) with (le_decode bs);
    [exact IH|].
  pose proof (byte_val_range b).
  apply Z.div_unique with (r := byte_val b); lia.
Qed.

Lemma le_encode_zero n : le_encode n 0 = repeat x00 n.
Proof.
  induction n; cbn [le_encode repeat]; [reflexivity|].
  change (0 / 256) with 0. rewrite IHn. reflexivity.
Qed.

Lemma poke32_full old st : length st = 4%nat -> poke32 old st = le_decode st.
Proof.
  intros H. unfold poke32, blit.
  rewrite firstn_app, H. simpl (4 - 4)%nat. rewrite firstn_O, app_nil_r.
  rewrite <- H, firstn_all. reflexivity.
Qed.

(** A read of at most four bytes into a zeroed 32-bit object leaves the
    bytes it did not deliver at zero. *)
Lemma poke32_zero_bytes (d : list byte) :
  (length d <= 4)%nat ->
  le_encode 4 (poke32 0 d) = d ++ repeat x00 (4 - length d).
Proof.
  intros Hlen. unfold poke32, blit. rewrite le_encode_zero.
  assert (E : firstn 4 (d ++ skipn (length d) (repeat x00 4))
              = d ++ repeat x00 (4 - length d)).
  { destruct d as [|a [|b [|c [|e [|f d]]]]]; simpl in *;
      try reflexivity; lia. }
  rewrite E.
  assert (L : length (d ++ repeat x00 (4 - length d)) = 4%nat)
    by (rewrite length_app, repeat_length; lia).
  rewrite <- L at 1. apply le_encode_decode.
Qed.

(** ** What [read] and [write] can return *)
Lemma write_ret_range r len : -1 <= write_ret r len <= Z.of_nat len.
Proof. destruct r; simpl; lia. Qed.

Lemma read_ret_spec r count n d :
  read_ret r count = (n, d) ->
  (n = -1 /\ d = []) \/
  (n = Z.of_nat (length d) /\ (length d <= Z.to_nat count)%nat).
Proof.
  destruct r as [bs|]; simpl; intros E; inversion E; subst; clear E.
  - right. split; [reflexivity|]. rewrite length_firstn. lia.
  - left. auto.
Qed.

Lemma read_ret_range r count n d :
  0 <= count -> read_ret r count = (n, d) -> -1 <= n <= count.
Proof.
  intros Hc E. apply read_ret_spec in E. destruct E as [[-> _]|[-> Hl]]; lia.
Qed.

Lemma read_ret_full r count n d :
  read_ret r count = (n, d) -> 0 <= n -> length d = Z.to_nat n.
Proof.
  intros E Hn. apply read_ret_spec in E. destruct E as [[-> _]|[-> Hl]]; lia.
Qed.

(** ** Scanning the version text *)
Lemma isdigit_not_space b : isdigit b = true -> isspace b = false.
Proof. destruct b; intros H; try discriminate H; reflexivity. Qed.

Lemma isdigit_not_sign b : isdigit b = true -> take_sign (b :: nil) = (false, [b]).
Proof. destruct b; intros H; try discriminate H; reflexivity. Qed.

Lemma isdigit_not_nul b : isdigit b = true -> negb (Byte.eqb b x00) = true.
Proof. destruct b; intros H; try discriminate H; reflexivity. Qed.

Lemma digits_not_nul ds :
  forallb isdigit ds = true ->
  forallb (fun b => negb (Byte.eqb b x00)) ds = true.
Proof.
  intros H. rewrite forallb_forall in *. intros b Hb.
  apply isdigit_not_nul. apply H. exact Hb.
Qed.

Lemma span_digits_app ds rest :
  forallb isdigit ds = true ->
  match rest with [] => True | b :: _ => isdigit b = false end ->
  span_digits (ds ++ rest) = (ds, rest).
Proof.
  intros Hds Hrest. induction ds as [|b ds IH]; cbn [app span_digits].
  - destruct rest as [|c rest]; [reflexivity|]. cbn [span_digits].
    rewrite Hrest. reflexivity.
  - cbn [forallb] in Hds. apply andb_prop in Hds. destruct Hds as [Hb Hds].
    rewrite Hb, (IH Hds). reflexivity.
Qed.

Lemma scan_d_digits ds rest :
  ds <> [] ->
  forallb isdigit ds = true ->
  match rest with [] => True | b :: _ => isdigit b = false end ->
  scan_d (ds ++ rest)
  = Converted (sint32 (clamp_long (digits_val ds))) rest.
Proof.
  intros Hne Hds Hrest. destruct ds as [|b ds]; [contradiction|].
  pose proof Hds as Hb. cbn [forallb] in Hb. apply andb_prop in Hb.
  destruct Hb as [Hb _].
  unfold scan_d. cbn [app skip_space].
  rewrite (isdigit_not_space b Hb).
  assert (Hs : take_sign (b :: ds ++ rest) = (false, b :: ds ++ rest)).
  { pose proof (isdigit_not_sign b Hb) as H. unfold take_sign in *.
    destruct (Byte.eqb b "-"); [discriminate H|].
    destruct (Byte.eqb b "+"); [discriminate H|]. reflexivity. }
  rewrite Hs. change (b :: ds ++ rest) with ((b :: ds) ++ rest).
  rewrite (span_digits_app (b :: ds) rest Hds Hrest). reflexivity.
Qed.

Lemma decimal_ok_255 n : 0 <= n <= 255 -> decimal_ok n = true.
Proof.
  intros Hn.
  assert (H : forallb decimal_ok (map Z.of_nat (seq 0 256)) = true)
    by (vm_compute; reflexivity).
  rewrite forallb_forall in H. apply H.
  apply in_map_iff. exists (Z.to_nat n). split; [lia|].
  apply in_seq. lia.
Qed.

Lemma decimal_255 n :
  0 <= n <= 255 ->
  decimal n <> [] /\ forallb isdigit (decimal n) = true
  /\ digits_val (decimal n) = n /\ (length (decimal n) <= 3)%nat.
Proof.
  intros Hn. pose proof (decimal_ok_255 n Hn) as H. unfold decimal_ok in H.
  cbv zeta in H.
  apply andb_prop in H. destruct H as [H H3].
  apply andb_prop in H. destruct H as [H1 H2].
  apply andb_prop in H3. destruct H3 as [H3 H4].
  apply Z.eqb_eq in H2. apply Nat.leb_le in H3, H4.
  repeat split; auto.
  intros E. rewrite E in H3. simpl in H3. lia.
Qed.

Lemma sscanf_version_text maj min rev tl :
  0 <= maj <= 255 -> 0 <= min <= 255 -> 0 <= rev <= 255 ->
  match tl with [] => True | b :: _ => isdigit b = false end ->
  sscanf_d_d_d (decimal maj ++ "."%byte :: decimal min
                  ++ "."%byte :: decimal rev ++ tl)
  = (3, [maj; min; rev]).
Proof.
  intros Ha Hb Hc Htl.
  destruct (decimal_255 maj Ha) as (Na & Da & Va & _).
  destruct (decimal_255 min Hb) as (Nb & Db & Vb & _).
  destruct (decimal_255 rev Hc) as (Nc & Dc & Vc & _).
  unfold sscanf_d_d_d.
  rewrite (scan_d_digits _ _ Na Da) by reflexivity.
  cbn [expect]. change (Byte.eqb "." ".") with true. cbv iota.
  rewrite (scan_d_digits _ _ Nb Db) by reflexivity.
  cbn [expect]. change (Byte.eqb "." ".") with true. cbv iota.
  rewrite (scan_d_digits _ _ Nc Dc) by exact Htl.
  rewrite Va, Vb, Vc, !small_int_conv by assumption. reflexivity.
Qed.

Lemma c_str_app_nul txt tl :
  forallb (fun b => negb (Byte.eqb b x00)) txt = true ->
  c_str (txt ++ x00 :: tl) = txt.
Proof.
  intros H. induction txt as [|b txt IH]; cbn [app c_str].
  - reflexivity.
  - cbn [forallb] in H. apply andb_prop in H. destruct H as [Hb H].
    apply negb_true_iff in Hb. rewrite Hb, (IH H). reflexivity.
Qed.

Lemma skipn_repeat_lt (x : byte) n m :
  (n < m)%nat -> skipn n (repeat x m) = x :: repeat x (m - n - 1).
Proof.
  revert m. induction n as [|n IH]; intros m H.
  - destruct m; [lia|]. cbn [skipn repeat]. f_equal. f_equal. lia.
  - destruct m; [lia|]. cbn [skipn repeat]. rewrite IH by lia. reflexivity.
Qed.

Lemma c_str_blit txt :
  forallb (fun b => negb (Byte.eqb b x00)) txt = true ->
  (length txt < 1024)%nat ->
  c_str (blit txt rd_buf0) = txt.
Proof.
  intros Hnul Hlen. unfold blit, rd_buf0.
  rewrite skipn_repeat_lt by exact Hlen. apply c_str_app_nul. exact Hnul.
Qed.

Lemma version_text_length maj min rev :
  (0 < length (version_text maj min rev))%nat.
Proof.
  unfold version_text. rewrite length_app. cbn [length]. lia.
Qed.

Lemma c_str_version_text maj min rev :
  0 <= maj <= 255 -> 0 <= min <= 255 -> 0 <= rev <= 255 ->
  c_str (blit (version_text maj min rev) rd_buf0) = version_text maj min rev.
Proof.
  intros Ha Hb Hc.
  destruct (decimal_255 maj Ha) as (_ & Da & _ & La).
  destruct (decimal_255 min Hb) as (_ & Db & _ & Lb).
  destruct (decimal_255 rev Hc) as (_ & Dc & _ & Lc).
  apply c_str_blit; unfold version_text.
  - rewrite forallb_app. cbn [forallb]. rewrite forallb_app. cbn [forallb].
    rewrite forallb_app. cbn [forallb].
    rewrite !digits_not_nul by assumption. reflexivity.
  - rewrite length_app. cbn [length]. rewrite length_app. cbn [length].
    rewrite length_app. cbn [length]. lia.
Qed.

(** ** Packing the version *)
Lemma pack_version maj min rev :
  0 <= maj <= 255 -> 0 <= min <= 255 -> 0 <= rev <= 255 ->
  uint32 (int_or (int_or (int_shl maj 24) (int_shl min 8)) rev)
  = Z.lor (Z.lor (Z.shiftl maj 24) (Z.shiftl min 8)) rev.
Proof.
  intros Ha Hb Hc. unfold int_or, int_shl.
  rewrite !uint32_lor, !uint32_sint32.
  rewrite !Z.shiftl_mul_pow2 by lia.
  rewrite !uint32_small; try reflexivity; rewrite two_32.
  - lia.
  - change (2 ^ 8) with 256. lia.
  - change (2 ^ 24) with 16777216. lia.
Qed.

Lemma version_fields maj min rev :
  0 <= maj <= 255 -> 0 <= min <= 255 -> 0 <= rev <= 255 ->
  let v := Z.lor (Z.lor (Z.shiftl maj 24) (Z.shiftl min 8)) rev in
  v = maj * 2 ^ 24 + min * 2 ^ 8 + rev
  /\ Z.land (Z.shiftr v 24) 255 = maj
  /\ Z.land (Z.shiftr v 8) 255 = min
  /\ Z.land v 255 = rev
  /\ Z.land (Z.shiftr v 16) 255 = 0.
Proof.
  intros Ha Hb Hc v.
  assert (E : v = maj * 2 ^ 24 + min * 2 ^ 8 + rev).
  { unfold v. rewrite !Z.shiftl_mul_pow2 by lia.
    rewrite (lor_concat maj (min * 2 ^ 8) 24)
      by (change (2 ^ 8) with 256; change (2 ^ 24) with 16777216; lia).
    replace (maj * 2 ^ 24 + min * 2 ^ 8)
      with ((maj * 2 ^ 16 + min) * 2 ^ 8)
      by (change (2 ^ 24) with (2 ^ 16 * 2 ^ 8); ring).
    rewrite lor_concat by (change (2 ^ 8) with 256; lia).
    reflexivity. }
  split; [exact E|]. clearbody v. subst v.
  change 255 with (Z.ones 8).
  rewrite !Z.land_ones, !Z.shiftr_div_pow2 by lia.
  change (2 ^ 24) with 16777216. change (2 ^ 16) with 65536.
  change (2 ^ 8) with 256.
  repeat split; Z.to_euclidean_division_equations; lia.
Qed.

(** ** Running the library step by step *)

(** Unfold one layer of the monad and of the protocol functions. *)
Ltac norm :=
  cbv beta iota zeta delta
    [smu_read_pm_table smu_send_command smu_read_smn_addr smu_write_smn_addr
     smu_init smu_init_parse try_open_path
     sys_open sys_close sys_lseek sys_read sys_write
     mutex_init mutex_lock mutex_unlock
     bind ret value final events fst snd app negb].

(** Name the outcome of the next [read] or [write] in the goal. *)
Ltac kread n d E :=
  match goal with
  | |- context [k_read ?k ?fd ?c ?st] =>
      let r := fresh "r" in
      destruct (k_read k fd c st) as [r ?s];
      destruct (read_ret r c) as [n d] eqn:E
  end.

Ltac kwrite n Hn :=
  match goal with
  | |- context [k_write ?k ?fd ?dt ?st] =>
      let r := fresh "r" in
      destruct (k_write k fd dt st) as [r ?s];
      pose proof (write_ret_range r (length dt)) as Hn;
      set (n := write_ret r (length dt)) in *
  end.

(** Membership of an event in a log that is known call by call. *)
Ltac in_log :=
  repeat match goal with
  | H : In _ (_ :: _) |- _ => destruct H as [H | H]
  | H : In _ [] |- _ => destruct H
  | H : Ev _ _ _ = Ev _ _ _ |- _ => inversion H; clear H; subst
  end.

Ltac log_has :=
  simpl In; solve [repeat first [left; reflexivity | right]].

(** Case analysis of discovery: one case per kernel reply and per test. *)
Ltac crunch_step :=
  first
  [ match goal with
    | |- context [k_open ?k ?p ?fl ?st] =>
        destruct (k_open k p fl st) as [?fd ?s]
    end
  | match goal with
    | |- context [k_read ?k ?fd ?c ?st] =>
        let r := fresh "r" in
        destruct (k_read k fd c st) as [r ?s];
        destruct (read_ret r c) as [?n ?d] eqn:?Erd
    end
  | match goal with
    | |- context [sscanf_d_d_d ?x] =>
        destruct (sscanf_d_d_d x) as [?r ?vals] eqn:?Esc
    end
  | match goal with
    | |- context [Z.geb ?a ?b] => rewrite (Z.geb_leb a b)
    end
  | match goal with
    | |- context [Z.eqb ?a ?b] => destruct (Z.eqb_spec a b)
    end
  | match goal with
    | |- context [Z.ltb ?a ?b] => destruct (Z.ltb_spec a b)
    end
  | match goal with
    | |- context [Z.leb ?a ?b] => destruct (Z.leb_spec a b)
    end ].

Ltac norm' :=
  cbv beta iota zeta delta
    [smu_init_parse try_open_path
     sys_open sys_close sys_lseek sys_read sys_write
     mutex_init mutex_lock mutex_unlock
     bind ret value final events fst snd app negb orb andb].

Ltac crunch := norm'; repeat (crunch_step; norm').

Ltac norm_init :=
  cbv beta iota zeta delta
    [smu_init smu_init_parse smu_pm_tables_supported try_open_path
     sys_open sys_close sys_lseek sys_read sys_write
     mutex_init mutex_lock mutex_unlock
     bind ret value final events fst snd app negb orb andb].

Ltac crunch_init := norm_init; repeat (crunch_step; norm_init).

(** Facts a case knows about the reads it made. *)
Ltac read_facts :=
  repeat match goal with
  | E : read_ret _ ?c = (?n, _) |- _ =>
      lazymatch goal with
      | _ : -1 <= n <= c |- _ => fail
      | _ => pose proof (read_ret_range _ c _ _ ltac:(lia) E)
      end
  end.

Ltac log_run := vm_compute; solve [repeat first [left; reflexivity | right]].

(** ** Discovery: [smu_init_parse] and [smu_init] *)

(** C2.  When the read of the version file delivers ["MAJ.MIN.REV\n"] with
    MAJ, MIN and REV decimal numerals of values in [0,255], discovery stores
    [(MAJ<<24)|(MIN<<8)|REV] in [smu_version], and each of the three fields
    can be read back from its own bits; when the read succeeds and [sscanf]
    assigns fewer than three integers (or returns [EOF]), discovery returns
    [SMU_Return_RWError]. *)
Theorem version_parse_and_pack :
  forall K (kern : kernel K) h obj s,
    let r := smu_init_parse kern h obj s in
    (forall maj min rev fd n,
        0 <= maj <= 255 -> 0 <= min <= 255 -> 0 <= rev <= 255 ->
        In (Ev (c_read VERSION_PATH fd MAX_SMU_VERSION_LEN) n
               (version_text maj min rev)) (events r) ->
        let v := smu_version (snd (value r)) in
        v = Z.lor (Z.lor (Z.shiftl maj 24) (Z.shiftl min 8)) rev
        /\ Z.land (Z.shiftr v 24) 255 = maj
        /\ Z.land (Z.shiftr v 8) 255 = min
        /\ Z.land v 255 = rev)
    /\ (forall fd n d,
           In (Ev (c_read VERSION_PATH fd MAX_SMU_VERSION_LEN) n d)
              (events r) ->
           0 <= n ->
           fst (sscanf_d_d_d (c_str (blit d rd_buf0))) < 3 ->
           fst (value r) = SMU_Return_RWError h).
Proof.
  intros K kern h obj s.
  crunch; split.
  all: try (intros fd' n' d' Hin Hn Hsc; in_log;
            try reflexivity;
            try (rewrite Esc in Hsc; cbn [fst] in Hsc; unfold EOF in *; lia);
            fail).
  all: intros maj min rev fd' n' Ha Hb Hc Hin; in_log.
  all: unfold MAX_SMU_VERSION_LEN in *.
  all: pose proof (version_text_length maj min rev) as Hlen.
  all: match goal with
       | E : read_ret _ 12 = (_, version_text _ _ _) |- _ =>
           pose proof (read_ret_range _ 12 _ _ ltac:(lia) E) as Hrange;
           pose proof (read_ret_spec _ _ _ _ E) as [[_ Hnil] | [Hn _]];
           [rewrite Hnil in Hlen; cbn [length] in Hlen; lia|]
       end.
  all: try (exfalso; rewrite sint32_small in * by (rewrite two_31; lia); lia).
  all: rewrite c_str_version_text in Esc by assumption.
  all: unfold version_text in Esc.
  all: rewrite (sscanf_version_text maj min rev [x0a]) in Esc
         by (assumption || reflexivity).
  all: inversion Esc; subst.
  all: try (exfalso; unfold EOF in *; lia).
  all: cbn [smu_version snd set_smu_version set_codename
            set_pm_table_version set_pm_table_size nth].
  all: rewrite pack_version by assumption.
  all: pose proof (version_fields maj min rev Ha Hb Hc) as Hf;
       cbv zeta in Hf; tauto.
Qed.

Lemma version_parse_and_pack_witness :
  smu_version (snd (value run_short_reads)) = 0xFF000011
  /\ Z.land (Z.shiftr (smu_version (snd (value run_short_reads))) 24) 255
     = 255
  /\ fst (sscanf_d_d_d
            (c_str (blit ["1"%byte; "."%byte; "2"%byte] rd_buf0))) < 3
  /\ fst (value run_two_fields) = SMU_Return_RWError sample_h.
Proof.
  pose proof (version_parse_and_pack _ replay sample_h smu_obj_zero
                script_short_reads) as [Hpack _].
  pose proof (version_parse_and_pack _ replay sample_h smu_obj_zero
                script_two_fields) as [_ Hshort].
  cbv zeta in Hpack, Hshort.
  destruct (Hpack 255 0 17 3 9) as (Hv & Hmaj & _);
    [lia | lia | lia | log_run |].
  split; [exact Hv|]. split; [exact Hmaj|].
  split; [vm_compute; reflexivity|].
  apply (Hshort 3 3 ["1"%byte; "."%byte; "2"%byte]);
    [log_run | lia | vm_compute; reflexivity].
Defined.

(** X20.  The range test is on the value [atoi] parses from [rd_buf] after
    the codename read, that is from the bytes of the codename file followed
    by what the version read left behind them.  When that value is at most
    [CODENAME_UNDEFINED] or at least [CODENAME_COUNT], discovery returns
    [SMU_Return_Unsupported]; [smu_init] returns the same value after the
    calls of discovery alone: it opens no channel file and leaves the four
    descriptors of the session at zero. *)
Theorem unsupported_codename :
  forall K (kern : kernel K) h obj s fdv nv dv fdc nc dc,
    0 <= CODENAME_UNDEFINED h ->
    CODENAME_COUNT h <= 2 ^ 31 ->
    SMU_Return_Unsupported h <> SMU_Return_OK h ->
    let rp := smu_init_parse kern h smu_obj_zero s in
    let ri := smu_init kern h obj s in
    In (Ev (c_read VERSION_PATH fdv MAX_SMU_VERSION_LEN) nv dv) (events rp) ->
    In (Ev (c_read CODENAME_PATH fdc 3) nc dc) (events rp) ->
    0 <= nc ->
    let v := atoi (c_str (blit dc (blit dv rd_buf0))) in
    v <= CODENAME_UNDEFINED h \/ CODENAME_COUNT h <= v ->
    fst (value rp) = SMU_Return_Unsupported h
    /\ fst (value ri) = SMU_Return_Unsupported h
    /\ events ri = events rp
    /\ (forall p fl fd d,
          In (Ev (c_open p fl) fd d) (events ri) ->
          p = VERSION_PATH \/ p = CODENAME_PATH)
    /\ fd_smn (snd (value ri)) = 0
    /\ fd_smu_cmd (snd (value ri)) = 0
    /\ fd_smu_args (snd (value ri)) = 0
    /\ fd_pm_table (snd (value ri)) = 0.
Proof.
  intros K kern h obj s fdv nv dv fdc nc dc Hundef Hcount Hdist.
  rewrite two_31 in Hcount.
  crunch_init; intros Hv Hc Hnc Hrange; in_log; read_facts;
    rewrite ?sint32_small in * by (rewrite two_31; lia); try lia;
    try congruence.
  all: try (cbn [fd_smn fd_smu_cmd fd_smu_args fd_pm_table set_codename
                 set_smu_version smu_obj_zero];
            repeat (split; [reflexivity|]);
            split; [|tauto];
            intros p fl fd d Hin; in_log; tauto).
  all: exfalso.
  all: cbn [codename set_codename] in *.
  all: match goal with
       | H : _ \/ _ |- _ =>
           pose proof (sint32_range
                         (strtol10 (c_str (blit dc (blit dv rd_buf0)))))
             as Hr;
           fold (atoi (c_str (blit dc (blit dv rd_buf0)))) in Hr;
           rewrite two_31 in Hr;
           destruct (Z_lt_dec (atoi (c_str (blit dc (blit dv rd_buf0)))) 0)
       end.
  all: try (rewrite uint32_neg in * by (rewrite ?two_31; lia);
            rewrite two_32 in *; lia).
  all: try (rewrite uint32_small in * by (rewrite ?two_32; lia); lia).
Qed.

Lemma unsupported_codename_witness :
  atoi (c_str (blit ["1"%byte; "1"%byte; x0a]
                 (blit (version_text 1 2 3) rd_buf0))) = 11
  /\ fst (value run_codename_11) = SMU_Return_Unsupported sample_h
  /\ fst (value run_init_codename_11) = SMU_Return_Unsupported sample_h
  /\ events run_init_codename_11 = events run_codename_11.
Proof.
  split; [vm_compute; reflexivity|].
  destruct (unsupported_codename _ replay sample_h sample_obj
              script_codename_11 3 6 (version_text 1 2 3)
              3 3 ["1"%byte; "1"%byte; x0a])
    as (Hp & Hi & He & _);
    [ vm_compute; discriminate
    | vm_compute; discriminate
    | vm_compute; discriminate
    | log_run
    | log_run
    | lia
    | right; vm_compute; discriminate
    | ].
  split; [exact Hp|]. split; [exact Hi | exact He].
Defined.

(** C7.  The code breaks the claim where the codename file holds fewer
    than 3 bytes and no terminator.  With the version file ["12.3.4\n"] and
    the codename file ["0"], the number in the codename file is the
    undefined sentinel, yet [rd_buf], which is zeroed once and not
    terminated after the second read, holds ["02.3.4\n"]: [atoi] gives 2,
    discovery returns [SMU_Return_OK] instead of [SMU_Return_Unsupported],
    and [smu_init] opens the three channel files and marks the session
    initialised. *)
Theorem codename_zero_merged_with_version :
  atoi (c_str codename_0) = CODENAME_UNDEFINED sample_h
  /\ In (Ev (c_read CODENAME_PATH 3 3) 1 codename_0) (events run_codename_0)
  /\ c_str (blit codename_0 (blit (version_text 12 3 4) rd_buf0))
     = ["0"%byte; "2"%byte; "."%byte; "3"%byte; "."%byte; "4"%byte; x0a]
  /\ codename (snd (value run_codename_0)) = 2
  /\ fst (value run_codename_0) = SMU_Return_OK sample_h
  /\ fst (value run_codename_0) <> SMU_Return_Unsupported sample_h
  /\ fst (value run_init_codename_0) = SMU_Return_OK sample_h
  /\ init (snd (value run_init_codename_0)) = 1
  /\ channel_open_results (events run_init_codename_0) = [4; 5; 6].
Proof.
  split; [vm_compute; reflexivity|].
  split; [log_run|].
  split; [vm_compute; reflexivity|].
  split; [vm_compute; reflexivity|].
  split; [vm_compute; reflexivity|].
  split; [vm_compute; discriminate|].
  split; [vm_compute; reflexivity|].
  split; vm_compute; reflexivity.
Qed.

(** A table read whose declared length differs from [pm_table_size] makes
    no call at all. *)
Lemma smu_read_pm_table_mismatch :
  forall K (kern : kernel K) h obj dst dst_len s,
    dst_len <> pm_table_size obj ->
    smu_read_pm_table kern h obj dst dst_len s
    = ((SMU_Return_InsufficientSize h, dst), s, []).
Proof.
  intros K kern h obj dst dst_len s Hne.
  unfold smu_read_pm_table.
  apply Z.eqb_neq in Hne. rewrite Hne. reflexivity.
Qed.

(** C5 (amended).  When the open of the table-version file fails during
    discovery on the zeroed session, discovery returns [SMU_Return_OK] with
    [pm_table_version] and [pm_table_size] both zero, so that
    [smu_pm_tables_supported] is 0; every later table read on that session
    whose declared length is not zero returns
    [SMU_Return_InsufficientSize], which is not [SMU_Return_OK], and makes
    no call. *)
Theorem discovery_without_table :
  forall K (kern : kernel K) h s,
    SMU_Return_InsufficientSize h <> SMU_Return_OK h ->
    let r := smu_init_parse kern h smu_obj_zero s in
    In (Ev (c_open PM_VERSION_PATH O_RDONLY) (-1) []) (events r) ->
    fst (value r) = SMU_Return_OK h
    /\ pm_table_version (snd (value r)) = 0
    /\ pm_table_size (snd (value r)) = 0
    /\ smu_pm_tables_supported (snd (value r)) = 0
    /\ forall K' (kern' : kernel K') dst dst_len s',
        dst_len <> 0 ->
        let r' := smu_read_pm_table kern' h (snd (value r)) dst dst_len s' in
        r' = ((SMU_Return_InsufficientSize h, dst), s', [])
        /\ fst (value r') <> SMU_Return_OK h.
Proof.
  intros K kern h s Hdist.
  crunch; intros Hin; in_log; try congruence.
  cbn [pm_table_version pm_table_size set_codename set_smu_version
       smu_obj_zero].
  repeat (split; [reflexivity|]).
  intros K' kern' dst dst_len s' Hlen. cbv zeta.
  rewrite smu_read_pm_table_mismatch by exact Hlen.
  split; [reflexivity | exact Hdist].
Qed.

Lemma discovery_without_table_witness :
  In (Ev (c_open PM_VERSION_PATH O_RDONLY) (-1) []) (events run_no_table)
  /\ fst (value run_no_table) = SMU_Return_OK sample_h
  /\ smu_pm_tables_supported (snd (value run_no_table)) = 0
  /\ run_table_read_100
     = ((SMU_Return_InsufficientSize sample_h, repeat x00 100),
        [r_read (Some [])], []).
Proof.
  assert (Hopen : In (Ev (c_open PM_VERSION_PATH O_RDONLY) (-1) [])
                     (events run_no_table)) by log_run.
  destruct (discovery_without_table _ replay sample_h script_no_table)
    as (Hok & _ & _ & Hsup & Hread);
    [vm_compute; discriminate | exact Hopen |].
  split; [exact Hopen|]. split; [exact Hok|]. split; [exact Hsup|].
  apply (Hread _ replay (repeat x00 100) 100 [r_read (Some [])]). lia.
Defined.

(** C5, as stated, fails: on the session discovery leaves when the
    table-version file is absent, a table read of declared length zero is
    not rejected.  The length equals [pm_table_size], the read of zero
    bytes on the never-opened descriptor 0 returns 0, and the call returns
    [SMU_Return_OK]. *)
Lemma table_read_of_length_zero_accepted :
  In (Ev (c_open PM_VERSION_PATH O_RDONLY) (-1) []) (events run_no_table)
  /\ fst (value run_no_table) = SMU_Return_OK sample_h
  /\ pm_table_version (snd (value run_no_table)) = 0
  /\ pm_table_size (snd (value run_no_table)) = 0
  /\ fst (value run_table_read_0) = SMU_Return_OK sample_h
  /\ map ev_call (events run_table_read_0)
     = [c_mutex_lock 2; c_lseek PM_PATH 0 0; c_read PM_PATH 0 0;
        c_mutex_unlock 2]
  /\ fst (value run_init_no_table) = SMU_Return_OK sample_h
  /\ init (snd (value run_init_no_table)) = 1
  /\ fd_pm_table (snd (value run_init_no_table)) = 0
  /\ fst (value run_init_table_read_0) = SMU_Return_OK sample_h.
Proof.
  split; [log_run|]. repeat split; vm_compute; reflexivity.
Qed.

(** C6.  When the read of the table-version file returns a positive count
    and then either the open of the table-size file fails or its read
    returns a count that is not positive, discovery returns
    [SMU_Return_RWError], hence not [SMU_Return_OK]. *)
Theorem discovery_size_file_mandatory :
  forall K (kern : kernel K) h obj s fd n d,
    let r := smu_init_parse kern h obj s in
    In (Ev (c_read PM_VERSION_PATH fd 4) n d) (events r) ->
    0 < n ->
    (In (Ev (c_open PM_SIZE_PATH O_RDONLY) (-1) []) (events r)
     \/ exists fd' n' d',
          In (Ev (c_read PM_SIZE_PATH fd' 4) n' d') (events r) /\ n' <= 0) ->
    fst (value r) = SMU_Return_RWError h
    /\ (SMU_Return_OK h <> SMU_Return_RWError h ->
        fst (value r) <> SMU_Return_OK h).
Proof.
  intros K kern h obj s fd n d.
  crunch; intros Hin Hpos Hsize; clear Hin;
    try (split; [reflexivity | congruence]);
    exfalso; read_facts;
    destruct Hsize as [Hsize | (fd' & n' & d' & Hsize & Hle)]; in_log;
    try congruence;
    rewrite sint32_small in * by (rewrite two_31; lia); lia.
Qed.

Lemma discovery_size_file_mandatory_witness :
  In (Ev (c_read PM_VERSION_PATH 3 4) 4 [x01; x00; x00; x00])
     (events run_no_size)
  /\ In (Ev (c_open PM_SIZE_PATH O_RDONLY) (-1) []) (events run_no_size)
  /\ fst (value run_no_size) = SMU_Return_RWError sample_h
  /\ fst (value run_empty_pm_size) = SMU_Return_RWError sample_h.
Proof.
  split; [log_run|]. split; [log_run|]. split.
  - apply (discovery_size_file_mandatory _ replay sample_h smu_obj_zero
             script_no_size 3 4 [x01; x00; x00; x00]);
      [log_run | lia | left; log_run].
  - apply (discovery_size_file_mandatory _ replay sample_h smu_obj_zero
             script_empty_pm_size 3 4 [x01; x00; x00; x00]);
      [log_run | lia | right; exists 3, 0, []; split; [log_run | lia]].
Defined.

(** C10.  On the zeroed session, when the reads of the table-version and
    table-size files both return a positive count, even one below 4,
    discovery returns [SMU_Return_OK] and each 32-bit field holds the bytes
    delivered followed by zero bytes; a count that is zero or negative, for
    either file, makes discovery return [SMU_Return_RWError]. *)
Theorem discovery_short_positive_reads :
  forall K (kern : kernel K) h s,
    let r := smu_init_parse kern h smu_obj_zero s in
    (forall fd n d fd' n' d',
        In (Ev (c_read PM_VERSION_PATH fd 4) n d) (events r) -> 0 < n ->
        In (Ev (c_read PM_SIZE_PATH fd' 4) n' d') (events r) -> 0 < n' ->
        fst (value r) = SMU_Return_OK h
        /\ le_encode 4 (pm_table_version (snd (value r)))
           = d ++ repeat x00 (4 - length d)
        /\ le_encode 4 (pm_table_size (snd (value r)))
           = d' ++ repeat x00 (4 - length d'))
    /\ (forall fd n d,
           In (Ev (c_read PM_VERSION_PATH fd 4) n d) (events r) -> n <= 0 ->
           fst (value r) = SMU_Return_RWError h)
    /\ (forall fd n d,
           In (Ev (c_read PM_SIZE_PATH fd 4) n d) (events r) -> n <= 0 ->
           fst (value r) = SMU_Return_RWError h).
Proof.
  intros K kern h s.
  crunch; (split; [|split]); intros;
    try reflexivity; read_facts; in_log;
    rewrite ?sint32_small in * by (rewrite two_31; lia);
    try lia.
  cbn [pm_table_version pm_table_size set_pm_table_version set_pm_table_size
       set_codename set_smu_version smu_obj_zero].
  split; [reflexivity|].
  split; apply poke32_zero_bytes;
    match goal with
    | E : read_ret _ 4 = (_, ?d) |- (length ?d <= 4)%nat =>
        apply read_ret_spec in E; destruct E as [[? ?]|[? ?]]; subst;
        simpl; lia
    end.
Qed.

Lemma discovery_short_positive_reads_witness :
  fst (value run_short_reads) = SMU_Return_OK sample_h
  /\ le_encode 4 (pm_table_version (snd (value run_short_reads)))
     = [x01; x00; x00; x00]
  /\ le_encode 4 (pm_table_size (snd (value run_short_reads)))
     = [x00; x10; x00; x00]
  /\ fst (value run_empty_pm_version) = SMU_Return_RWError sample_h
  /\ fst (value run_empty_pm_size) = SMU_Return_RWError sample_h.
Proof.
  destruct (discovery_short_positive_reads _ replay sample_h
              script_short_reads) as (Hok & _ & _).
  destruct (discovery_short_positive_reads _ replay sample_h
              script_empty_pm_version) as (_ & Hver & _).
  destruct (discovery_short_positive_reads _ replay sample_h
              script_empty_pm_size) as (_ & _ & Hsize).
  destruct (Hok 3 1 [x01] 3 2 [x00; x10]) as (H1 & H2 & H3);
    [log_run | lia | log_run | lia |].
  split; [exact H1|]. split; [exact H2|]. split; [exact H3|].
  split.
  - apply (Hver 3 0 []); [log_run | lia].
  - apply (Hsize 3 0 []); [log_run | lia].
Defined.

(** ** Register read: [smu_read_smn_addr] *)

(** C8.  A register read returns [SMU_Return_OK] or [SMU_Return_RWError].
    It writes the 4-byte address once; when that write returns a count
    other than 4 the result is [SMU_Return_RWError] and no read is made;
    when it returns 4, a read of 4 bytes is made and the result is
    [SMU_Return_OK] exactly when that read returns 4. *)
Theorem smn_read_result :
  forall K (kern : kernel K) h obj address result s,
    SMU_Return_OK h <> SMU_Return_RWError h ->
    let r := smu_read_smn_addr kern h obj address result s in
    (fst (value r) = SMU_Return_OK h \/ fst (value r) = SMU_Return_RWError h)
    /\ exists n,
        In (Ev (c_write SMN_PATH (fd_smn obj) (le_encode 4 address)) n [])
           (events r)
        /\ (n <> 4 ->
            fst (value r) = SMU_Return_RWError h
            /\ forall p fd c m d, ~ In (Ev (c_read p fd c) m d) (events r))
        /\ (n = 4 ->
            exists m d,
              In (Ev (c_read SMN_PATH (fd_smn obj) 4) m d) (events r)
              /\ (fst (value r) = SMU_Return_OK h <-> m = 4)).
Proof.
  intros K kern h obj address result s Hdist. norm.
  kwrite n0 Hn0. rewrite length_le_encode in Hn0.
  assert (Hu : uint32 n0 = 4 <-> n0 = 4)
    by (apply uint32_eq_small; rewrite ?two_32; lia).
  destruct (uint32 n0 =? 4) eqn:E; norm.
  - apply Z.eqb_eq in E. apply Hu in E.
    kread m d Em. norm.
    pose proof (read_ret_range _ 4 _ _ ltac:(lia) Em) as Hm.
    assert (Hum : uint32 m = 4 <-> m = 4)
      by (apply uint32_eq_small; rewrite ?two_32; lia).
    destruct (uint32 m =? 4) eqn:E'.
    + apply Z.eqb_eq in E'. apply Hum in E'. split; [left; reflexivity|].
      exists n0. split; [log_has|]. split; [intros; contradiction|].
      intros _. exists m, d. split; [log_has|]. tauto.
    + apply Z.eqb_neq in E'. split; [right; reflexivity|].
      exists n0. split; [log_has|]. split; [intros; contradiction|].
      intros _. exists m, d. split; [log_has|].
      split; [intros Hc; symmetry in Hc; contradiction | tauto].
  - rewrite E. apply Z.eqb_neq in E. split; [right; reflexivity|].
    exists n0. split; [log_has|]. split.
    + intros _. split; [reflexivity|]. intros p fd c m d Hin. in_log.
    + intros ->. exfalso. apply E. reflexivity.
Qed.

Lemma smn_read_result_witness :
  SMU_Return_OK sample_h <> SMU_Return_RWError sample_h
  /\ fst (value run_smn_read) = SMU_Return_OK sample_h
  /\ fst (value run_smn_short_write) = SMU_Return_RWError sample_h.
Proof.
  assert (Hd : SMU_Return_OK sample_h <> SMU_Return_RWError sample_h)
    by (vm_compute; discriminate).
  split; [exact Hd|].
  destruct (smn_read_result _ replay sample_h sample_obj 0x59800 77
              [r_write (Some 4%nat); r_read (Some [x2a; x00; x00; x00])] Hd)
    as ([Hok | Herr] & _);
    [| vm_compute in Herr; discriminate Herr].
  destruct (smn_read_result _ replay sample_h sample_obj 0x59800 77
              [r_write (Some 3%nat)] Hd)
    as ([Hok' | Herr'] & _);
    [vm_compute in Hok'; discriminate Hok' |].
  split; [exact Hok | exact Herr'].
Defined.

(** C9.  When the address write of a register read returns a count other
    than 4, the call returns [SMU_Return_RWError] and the result word holds
    the value it held before the call. *)
Theorem smn_read_failed_write_keeps_result :
  forall K (kern : kernel K) h obj address result s fd data n,
    let r := smu_read_smn_addr kern h obj address result s in
    In (Ev (c_write SMN_PATH fd data) n []) (events r) ->
    n <> 4 ->
    value r = (SMU_Return_RWError h, result).
Proof.
  intros K kern h obj address result s fd data n. norm.
  kwrite n0 Hn0. rewrite length_le_encode in Hn0.
  assert (Hu : uint32 n0 = 4 <-> n0 = 4)
    by (apply uint32_eq_small; rewrite ?two_32; lia).
  destruct (uint32 n0 =? 4) eqn:E; norm.
  - apply Z.eqb_eq in E. apply Hu in E.
    kread m d Em. norm. intros Hin Hne. in_log; congruence.
  - intros _ _. rewrite E. reflexivity.
Qed.

Lemma smn_read_failed_write_keeps_result_witness :
  In (Ev (c_write SMN_PATH 4 (le_encode 4 0x59800)) 3 [])
     (events run_smn_short_write)
  /\ value run_smn_short_write = (SMU_Return_RWError sample_h, 77).
Proof.
  split; [log_run|].
  apply (smn_read_failed_write_keeps_result _ replay sample_h sample_obj
           0x59800 77 [r_write (Some 3%nat)] 4 (le_encode 4 0x59800) 3);
    [log_run | lia].
Defined.

(** ** Command exchange: [smu_send_command] *)



(** C3.  When the status read returns [SMU_Return_OK] and the read-back of
    the argument block returns fewer bytes than [sizeof(args.args)], the
    call returns [SMU_Return_RWError]. *)
Theorem command_short_readback :
  forall K (kern : kernel K) h obj op args s fd st fd' m d,
    0 <= sizeof_args h < 2 ^ 32 - 1 ->
    let r := smu_send_command kern h obj op args s in
    In (Ev (c_read SMU_CMD_PATH fd 4) 4 st) (events r) ->
    le_decode st = SMU_Return_OK h ->
    In (Ev (c_read SMU_ARG_PATH fd' (sizeof_args h)) m d) (events r) ->
    m < sizeof_args h ->
    value r = SMU_Return_RWError h.
Proof.
  intros K kern h obj op args s fd st fd' m d Hsz. norm.
  kwrite n1 Hn1.
  destruct (uint32 n1 =? Z.of_nat (length args)); norm;
    [|intros Hin; in_log].
  kwrite n2 Hn2.
  destruct (uint32 n2 =? 4); norm; [|intros Hin; in_log].
  kread m0 d0 Em0. norm.
  assert (Hshort : forall ra ma da,
             read_ret ra (sizeof_args h) = (ma, da) ->
             ma < sizeof_args h -> (uint32 ma =? sizeof_args h) = false).
  { intros ra ma da E Hlt. apply Z.eqb_neq. intros Hc.
    pose proof (read_ret_range ra (sizeof_args h) ma da (proj1 Hsz) E) as Hr.
    assert (ma = sizeof_args h); [|lia].
    apply (proj1 (uint32_eq_small ma (sizeof_args h)
                    (proj1 Hr) (proj2 Hr) Hsz) Hc). }
  destruct (uint32 m0 =? 4); norm;
    match goal with
    | |- context [if ?c =? SMU_Return_OK h then _ else _] =>
        destruct (c =? SMU_Return_OK h)
    end; norm;
    try (kread m' d' Em'; norm);
    intros Hin Hst Hin' Hlt; clear Hin; in_log;
    rewrite (Hshort _ _ _ Em' Hlt); reflexivity.
Qed.

Lemma command_short_readback_witness :
  In (Ev (c_read SMU_ARG_PATH 6 (sizeof_args sample_h)) 8 (repeat x00 8))
     (events run_command_short_readback)
  /\ value run_command_short_readback = SMU_Return_RWError sample_h.
Proof.
  split; [log_run|].
  apply (command_short_readback _ replay sample_h sample_obj 2 sample_args
           [r_write (Some 24%nat); r_write (Some 4%nat);
            r_read (Some [x01; x00; x00; x00]);
            r_read (Some (repeat x00 8))]
           5 [x01; x00; x00; x00] 6 8 (repeat x00 8));
    [vm_compute; split; [discriminate | reflexivity]
    | log_run | vm_compute; reflexivity | log_run | vm_compute; reflexivity].
Defined.

(** ** Table read: [smu_read_pm_table] *)

(** C4.  A table read whose declared length differs from [pm_table_size]
    returns [SMU_Return_InsufficientSize] at once: the destination is as it
    was, the kernel state is as it was, and the log is empty, so the table
    lock was not taken and nothing was read from the table channel. *)
Theorem table_read_length_guard :
  forall K (kern : kernel K) h obj dst dst_len s,
    dst_len <> pm_table_size obj ->
    let r := smu_read_pm_table kern h obj dst dst_len s in
    value r = (SMU_Return_InsufficientSize h, dst)
    /\ final r = s
    /\ events r = [].
Proof.
  intros K kern h obj dst dst_len s Hne. cbv zeta.
  rewrite smu_read_pm_table_mismatch by exact Hne.
  repeat split.
Qed.

Lemma table_read_length_guard_witness :
  100 <> pm_table_size sample_obj
  /\ value run_table_read_mismatch
     = (SMU_Return_InsufficientSize sample_h, repeat x00 100)
  /\ events run_table_read_mismatch = [].
Proof.
  assert (Hne : 100 <> pm_table_size sample_obj) by (vm_compute; discriminate).
  split; [exact Hne|].
  destruct (table_read_length_guard _ replay sample_h sample_obj
              (repeat x00 100) 100 [r_read (Some (repeat x01 16))] Hne)
    as (Hv & _ & He).
  split; [exact Hv | exact He].
Defined.

(** * Further properties *)

(** ** Wire format *)

Lemma byte_val_of_Z z : byte_val (byte_of_Z z) = z mod 256.
Proof.
  unfold byte_val, byte_of_Z.
  pose proof (Z.mod_pos_bound z 256 ltac:(lia)) as Hm.
  destruct (Byte.of_N (Z.to_N (z mod 256))) as [b|] eqn:E.
  - apply Byte.to_of_N in E. rewrite E. lia.
  - exfalso.
    pose proof (Byte.to_of_N_option_map (Z.to_N (z mod 256))) as H.
    rewrite E in H. cbn [option_map] in H.
    destruct (N.leb_spec (Z.to_N (z mod 256)) 255); [discriminate H | lia].
Qed.

Lemma le_decode_encode n z : le_decode (le_encode n z) = z mod 256 ^ Z.of_nat n.
Proof.
  revert z. induction n as [|n IH]; intros z; cbn [le_encode le_decode].
  - cbn. symmetry. apply Z.mod_1_r.
  - rewrite byte_val_of_Z, IH.
    replace (256 ^ Z.of_nat (S n)) with (256 * 256 ^ Z.of_nat n)
      by (rewrite Nat2Z.inj_succ, Z.pow_succ_r by lia; reflexivity).
    rewrite Z.rem_mul_r; [reflexivity | lia |].
    apply Z.pow_pos_nonneg; lia.
Qed.

Lemma le_decode_encode_32 z : le_decode (le_encode 4 z) = uint32 z.
Proof. rewrite le_decode_encode. reflexivity. Qed.

Lemma firstn_le_encode_app a b :
  firstn 4 (le_encode 4 a ++ le_encode 4 b) = le_encode 4 a.
Proof. reflexivity. Qed.

Lemma skipn_le_encode_app a b :
  skipn 4 (le_encode 4 a ++ le_encode 4 b) = le_encode 4 b.
Proof. reflexivity. Qed.

(** Case analysis of a protocol operation: one case per kernel reply and
    per test. *)
Ltac proto_step :=
  first
  [ match goal with
    | |- context [k_write ?k ?fd ?dt ?st] =>
        let r := fresh "w" in
        destruct (k_write k fd dt st) as [r ?s];
        pose proof (write_ret_range r (length dt))
    end
  | match goal with
    | |- context [k_read ?k ?fd ?c ?st] =>
        let r := fresh "r" in
        destruct (k_read k fd c st) as [r ?s];
        destruct (read_ret r c) as [?n ?d] eqn:?Erd
    end
  | match goal with
    | |- context [Z.eqb ?a ?b] => destruct (Z.eqb_spec a b)
    end ].

Ltac proto := norm; repeat (proto_step; norm).

(** ** Register write: [smu_write_smn_addr] *)

(** X1.  A register write makes exactly four calls: lock, seek to 0, one
    write of 8 bytes, unlock.  The first 4 bytes written decode
    (little-endian) to the address and the last 4 to the value, both taken
    modulo 2^32; the result is [SMU_Return_OK] exactly when the write
    returned 8, and [SMU_Return_RWError] otherwise. *)
Theorem smn_write_exchange :
  forall K (kern : kernel K) h obj address val s,
    SMU_Return_OK h <> SMU_Return_RWError h ->
    let r := smu_write_smn_addr kern h obj address val s in
    exists data n,
      events r
      = [Ev (c_mutex_lock (SMU_MUTEX_SMN h)) 0 [];
         Ev (c_lseek SMN_PATH (fd_smn obj) 0) 0 [];
         Ev (c_write SMN_PATH (fd_smn obj) data) n [];
         Ev (c_mutex_unlock (SMU_MUTEX_SMN h)) 0 []]
      /\ length data = 8%nat
      /\ le_decode (firstn 4 data) = uint32 address
      /\ le_decode (skipn 4 data) = uint32 val
      /\ (value r = SMU_Return_OK h <-> n = 8)
      /\ (value r = SMU_Return_OK h
          \/ value r = SMU_Return_RWError h).
Proof.
  intros K kern h obj address val s Hd.
  proto;
    (eexists; eexists; split; [reflexivity|]);
    (split; [reflexivity|]);
    rewrite firstn_le_encode_app, skipn_le_encode_app, !le_decode_encode_32;
    (split; [reflexivity|]); (split; [reflexivity|]);
    cbn [length le_encode app] in *.
  - assert (write_ret w 8 = 8).
    { apply (uint32_eq_small (write_ret w 8) 8); rewrite ?two_32; lia. }
    split; [tauto | left; reflexivity].
  - assert (write_ret w 8 <> 8) by (intros E; rewrite E in *; auto).
    split; [|right; reflexivity].
    split; [intros E; symmetry in E; contradiction | contradiction].
Qed.

Lemma smn_write_exchange_witness :
  SMU_Return_OK sample_h <> SMU_Return_RWError sample_h
  /\ value run_smn_write = SMU_Return_OK sample_h
  /\ value run_smn_write_short = SMU_Return_RWError sample_h.
Proof.
  assert (Hd : SMU_Return_OK sample_h <> SMU_Return_RWError sample_h)
    by (vm_compute; discriminate).
  split; [exact Hd|].
  destruct (smn_write_exchange _ replay sample_h sample_obj 0x59800 42
              [r_write (Some 8%nat)] Hd)
    as (_ & _ & _ & _ & _ & _ & _ & [Hok | Herr]);
    [| vm_compute in Herr; discriminate Herr].
  destruct (smn_write_exchange _ replay sample_h sample_obj 0x59800 42
              [r_write (Some 4%nat)] Hd)
    as (_ & _ & _ & _ & _ & _ & _ & [Hok' | Herr']);
    [vm_compute in Hok'; discriminate Hok' |].
  split; [exact Hok | exact Herr'].
Defined.

(** ** Lock and position discipline of the protocol operations *)

Ltac refl_eqb := rewrite ?Z.eqb_refl; reflexivity.

(** X2.  Every protocol operation that takes a lock releases it on every
    path: the log of a register read, a register write, a command exchange
    and a table read of the right length starts with the lock of its own
    mutex, ends with the unlock of the same mutex, and has no other mutex
    call in between (so no operation holds two locks). *)
Theorem protocol_lock_bracket :
  forall K (kern : kernel K) h obj s,
    (forall address result,
        bracketed (SMU_MUTEX_SMN h)
          (calls (events (smu_read_smn_addr kern h obj address result s)))
        = true)
    /\ (forall address val,
           bracketed (SMU_MUTEX_SMN h)
             (calls (events (smu_write_smn_addr kern h obj address val s)))
           = true)
    /\ (forall op args,
           bracketed (SMU_MUTEX_CMD h)
             (calls (events (smu_send_command kern h obj op args s)))
           = true)
    /\ (forall dst,
           bracketed (SMU_MUTEX_PM h)
             (calls (events (smu_read_pm_table kern h obj dst
                               (pm_table_size obj) s)))
           = true).
Proof.
  intros K kern h obj s.
  split; [|split; [|split]]; intros.
  - proto; cbn; refl_eqb.
  - proto; cbn; refl_eqb.
  - proto; cbn; refl_eqb.
  - unfold smu_read_pm_table. rewrite Z.eqb_refl. cbn [negb].
    proto; cbn; refl_eqb.
Qed.

(** X3.  In every protocol operation, on every path, each [read] and each
    [write] comes immediately after an [lseek] to offset 0 on the same
    descriptor. *)
Theorem protocol_seek_before_transfer :
  forall K (kern : kernel K) h obj s,
    (forall address result,
        seeks_before_transfers None
          (calls (events (smu_read_smn_addr kern h obj address result s)))
        = true)
    /\ (forall address val,
           seeks_before_transfers None
             (calls (events (smu_write_smn_addr kern h obj address val s)))
           = true)
    /\ (forall op args,
           seeks_before_transfers None
             (calls (events (smu_send_command kern h obj op args s)))
           = true)
    /\ (forall dst dst_len,
           seeks_before_transfers None
             (calls (events (smu_read_pm_table kern h obj dst dst_len s)))
           = true).
Proof.
  intros K kern h obj s.
  split; [|split; [|split]]; intros.
  - proto; cbn; refl_eqb.
  - proto; cbn; refl_eqb.
  - proto; cbn; refl_eqb.
  - proto; cbn; refl_eqb.
Qed.

(** ** Command exchange, the other paths *)

Ltac no_such_event :=
  let H := fresh in intros; intros H; in_log.

(** X4.  When the read-back of the argument block returns all
    [sizeof(args.args)] bytes, the command exchange returns that byte
    count, [sizeof(args.args)], as its result: [ret] is not set back to the
    status after the read. *)
Theorem command_success_returns_count :
  forall K (kern : kernel K) h obj op args s fd d,
    0 <= sizeof_args h < 2 ^ 32 ->
    let r := smu_send_command kern h obj op args s in
    In (Ev (c_read SMU_ARG_PATH fd (sizeof_args h)) (sizeof_args h) d)
       (events r) ->
    value r = sizeof_args h
    /\ length d = Z.to_nat (sizeof_args h).
Proof.
  intros K kern h obj op args s fd d Hsz.
  proto; intros Hin; in_log;
    try match goal with
        | H : uint32 (sizeof_args h) <> sizeof_args h |- _ =>
            exfalso; apply H; apply uint32_small; exact Hsz
        end.
  all: split; [apply uint32_small; exact Hsz|].
  all: eapply read_ret_full; [eassumption | lia].
Qed.

Lemma command_success_returns_count_witness :
  In (Ev (c_read SMU_ARG_PATH 6 (sizeof_args sample_h))
         (sizeof_args sample_h) (repeat x07 24))
     (events run_command_ok)
  /\ value run_command_ok = 24.
Proof.
  split; [log_run|].
  apply (command_success_returns_count _ replay sample_h sample_obj 2
           sample_args
           [r_write (Some 24%nat); r_write (Some 4%nat);
            r_read (Some [x01; x00; x00; x00]);
            r_read (Some (repeat x07 24))]
           6 (repeat x07 24));
    [change (sizeof_args sample_h) with 24; lia | log_run].
Defined.

(** X5.  A command exchange stops at the first short transfer.  A short
    argument write returns [SMU_Return_RWError] with no opcode write and no
    read; a short opcode write returns [SMU_Return_RWError] with no read;
    a status read of a count other than 4 returns [SMU_Return_RWError]
    with no read-back of the argument block. *)
Theorem command_aborts_on_short_transfer :
  forall K (kern : kernel K) h obj op args s,
    Z.of_nat (length args) < 2 ^ 32 - 1 ->
    SMU_Return_RWError h <> SMU_Return_OK h ->
    let r := smu_send_command kern h obj op args s in
    (forall fd data n,
        In (Ev (c_write SMU_ARG_PATH fd data) n []) (events r) ->
        n <> Z.of_nat (length args) ->
        value r = SMU_Return_RWError h
        /\ (forall fd' data' n' d',
               ~ In (Ev (c_write SMU_CMD_PATH fd' data') n' d') (events r))
        /\ (forall p fd' c n' d',
               ~ In (Ev (c_read p fd' c) n' d') (events r)))
    /\ (forall fd data n,
           In (Ev (c_write SMU_CMD_PATH fd data) n []) (events r) ->
           n <> 4 ->
           value r = SMU_Return_RWError h
           /\ (forall p fd' c n' d',
                  ~ In (Ev (c_read p fd' c) n' d') (events r)))
    /\ (forall fd n d,
           In (Ev (c_read SMU_CMD_PATH fd 4) n d) (events r) ->
           n <> 4 ->
           value r = SMU_Return_RWError h
           /\ (forall fd' c n' d',
                  ~ In (Ev (c_read SMU_ARG_PATH fd' c) n' d') (events r))).
Proof.
  intros K kern h obj op args s Hlen Hd.
  proto; cbn [length le_encode] in *.
  all: repeat match goal with
         | H : -1 <= ?n <= ?c, E : uint32 ?n = ?c |- _ =>
             apply (uint32_eq_small n c) in E;
               [|lia|lia|rewrite ?two_32; lia]
         | H : -1 <= ?n <= ?c, E : uint32 ?n <> ?c |- _ =>
             assert (n <> c)
               by (intros Eq; apply E; rewrite Eq; apply uint32_small;
                   rewrite two_32 in *; lia);
             clear E
         end.
  all: split; [|split]; intros; in_log; try contradiction; try congruence.
  all: try (repeat split; try reflexivity; no_such_event).
  all: exfalso.
  all: match goal with
       | E : read_ret _ 4 = (?n, _), Hn : ?n <> 4 |- _ =>
           pose proof (read_ret_range _ 4 _ _ ltac:(lia) E) as Hr;
           assert (Hu : (uint32 n =? 4) = false)
             by (apply Z.eqb_neq; intros Eq;
                 apply (uint32_eq_small n 4) in Eq;
                   [contradiction | lia | lia | rewrite two_32; lia])
       end.
  all: try match goal with
       | E : context [uint32 ?n =? 4], Hu : (uint32 ?n =? 4) = false |- _ =>
           rewrite Hu in E; contradiction
       end.
  all: match goal with
       | E : uint32 ?n = 4, Hu : (uint32 ?n =? 4) = false |- _ =>
           apply Z.eqb_neq in Hu; contradiction
       end.
Qed.

Lemma command_aborts_on_short_transfer_witness :
  value run_command_short_args = SMU_Return_RWError sample_h
  /\ value run_command_short_op = SMU_Return_RWError sample_h
  /\ value run_command_short_status = SMU_Return_RWError sample_h.
Proof.
  assert (Hlen : Z.of_nat (length sample_args) < 2 ^ 32 - 1)
    by (vm_compute; reflexivity).
  assert (Hd : SMU_Return_RWError sample_h <> SMU_Return_OK sample_h)
    by (vm_compute; discriminate).
  destruct (command_aborts_on_short_transfer _ replay sample_h sample_obj 2
              sample_args [r_write (Some 20%nat)] Hlen Hd) as (Ha & _ & _).
  destruct (command_aborts_on_short_transfer _ replay sample_h sample_obj 2
              sample_args [r_write (Some 24%nat); r_write None] Hlen Hd)
    as (_ & Hb & _).
  destruct (command_aborts_on_short_transfer _ replay sample_h sample_obj 2
              sample_args
              [r_write (Some 24%nat); r_write (Some 4%nat);
               r_read (Some [x01])] Hlen Hd)
    as (_ & _ & Hc).
  cbv zeta in Ha, Hb, Hc.
  split; [|split].
  - apply (Ha 6 sample_args 20); [log_run | vm_compute; discriminate].
  - apply (Hb 5 (le_encode 4 2) (-1)); [log_run | lia].
  - apply (Hc 5 1 [x01]); [log_run | lia].
Defined.

(** ** Table read and register read: the data *)

Lemma blit_full (data buf : list byte) :
  length buf = length data -> blit data buf = data.
Proof.
  intros H. unfold blit. rewrite <- H, skipn_all. apply app_nil_r.
Qed.

(** X6.  A table read whose declared length equals [pm_table_size] makes
    exactly four calls: lock, seek to 0, one read of [pm_table_size] bytes
    on [fd_pm_table], unlock.  It returns [SMU_Return_OK] exactly when the
    read returned [pm_table_size] and [SMU_Return_RWError] otherwise; the
    bytes delivered are copied to the start of the destination, and fill
    it when the read was complete. *)
Theorem table_read_exchange :
  forall K (kern : kernel K) h obj dst s,
    0 <= pm_table_size obj < 2 ^ 32 - 1 ->
    SMU_Return_OK h <> SMU_Return_RWError h ->
    let r := smu_read_pm_table kern h obj dst (pm_table_size obj) s in
    exists n d,
      events r
      = [Ev (c_mutex_lock (SMU_MUTEX_PM h)) 0 [];
         Ev (c_lseek PM_PATH (fd_pm_table obj) 0) 0 [];
         Ev (c_read PM_PATH (fd_pm_table obj) (pm_table_size obj)) n d;
         Ev (c_mutex_unlock (SMU_MUTEX_PM h)) 0 []]
      /\ (fst (value r) = SMU_Return_OK h <-> n = pm_table_size obj)
      /\ (fst (value r) = SMU_Return_OK h
          \/ fst (value r) = SMU_Return_RWError h)
      /\ snd (value r) = blit d dst
      /\ (n = pm_table_size obj ->
          length dst = Z.to_nat (pm_table_size obj) ->
          snd (value r) = d).
Proof.
  intros K kern h obj dst s Hsz Hd.
  unfold smu_read_pm_table. rewrite Z.eqb_refl. cbn [negb].
  norm. proto_step. norm. rewrite uint32_sint32.
  pose proof (read_ret_range _ _ _ _ (proj1 Hsz) Erd) as Hr.
  pose proof (uint32_eq_small n (pm_table_size obj)
                (proj1 Hr) (proj2 Hr) Hsz) as Hu.
  exists n, d. split; [reflexivity|].
  destruct (Z.eqb_spec (uint32 n) (pm_table_size obj)) as [E|E]; cbn [fst snd].
  - apply Hu in E. split; [tauto|]. split; [left; reflexivity|].
    split; [reflexivity|]. intros _ Hl. apply blit_full.
    rewrite Hl, <- E. symmetry. apply (read_ret_full _ _ _ _ Erd). lia.
  - assert (n <> pm_table_size obj) by (intros Eq; apply E, Hu, Eq).
    split; [split; [intros Hc; symmetry in Hc; contradiction | contradiction]|].
    split; [right; reflexivity|]. split; [reflexivity|]. contradiction.
Qed.

Lemma table_read_exchange_witness :
  0 <= pm_table_size sample_obj < 2 ^ 32 - 1
  /\ fst (value run_table_read_ok) = SMU_Return_OK sample_h
  /\ fst (value run_table_read_short) = SMU_Return_RWError sample_h.
Proof.
  assert (Hsz : 0 <= pm_table_size sample_obj < 2 ^ 32 - 1)
    by (change (pm_table_size sample_obj) with 16; lia).
  assert (Hd : SMU_Return_OK sample_h <> SMU_Return_RWError sample_h)
    by (vm_compute; discriminate).
  split; [exact Hsz|].
  destruct (table_read_exchange _ replay sample_h sample_obj (repeat x00 16)
              [r_read (Some (repeat x01 16))] Hsz Hd)
    as (_ & _ & _ & _ & [Hok | Herr] & _);
    [| vm_compute in Herr; discriminate Herr].
  destruct (table_read_exchange _ replay sample_h sample_obj (repeat x00 16)
              [r_read (Some (repeat x01 5))] Hsz Hd)
    as (_ & _ & _ & _ & [Hok' | Herr'] & _);
    [vm_compute in Hok'; discriminate Hok' |].
  split; [exact Hok | exact Herr'].
Defined.

(** The object after a read of at most four bytes: the bytes delivered,
    then the bytes that were there. *)
Lemma poke32_bytes old (d : list byte) :
  (length d <= 4)%nat ->
  le_encode 4 (poke32 old d) = d ++ skipn (length d) (le_encode 4 old).
Proof.
  intros Hlen. unfold poke32, blit.
  assert (L : length (d ++ skipn (length d) (le_encode 4 old)) = 4%nat)
    by (rewrite length_app, length_skipn, length_le_encode; lia).
  rewrite firstn_all2 by lia.
  rewrite <- L at 1. apply le_encode_decode.
Qed.

(** X7.  The data of a register read: the bytes the read delivers replace
    the first bytes of the result word and the other bytes keep what they
    held, also when the call fails on a short read.  With 4 bytes
    delivered the call returns [SMU_Return_OK] and the word is their
    little-endian value; with none delivered the word is unchanged. *)
Theorem smn_read_value :
  forall K (kern : kernel K) h obj address result s fd m d,
    let r := smu_read_smn_addr kern h obj address result s in
    In (Ev (c_read SMN_PATH fd 4) m d) (events r) ->
    le_encode 4 (snd (value r)) = d ++ skipn (length d) (le_encode 4 result)
    /\ (m = 4 -> value r = (SMU_Return_OK h, le_decode d))
    /\ (m <= 0 -> 0 <= result < 2 ^ 32 -> snd (value r) = result).
Proof.
  intros K kern h obj address result s fd m d.
  norm. kwrite n0 Hn0.
  destruct (uint32 n0 =? 4); norm; [|intros Hin; in_log].
  kread m' d' Em. norm. intros Hin. in_log.
  pose proof (read_ret_range _ 4 _ _ ltac:(lia) Em) as Hm.
  pose proof (read_ret_spec _ _ _ _ Em) as Hsp.
  assert (Hlen : (length d <= 4)%nat) by (destruct Hsp as [[_ ->]|[_ Hl]]; simpl in *; lia).
  split; [apply poke32_bytes; exact Hlen|]. split.
  - intros ->. rewrite (uint32_small 4) by (rewrite two_32; lia).
    cbn [Z.eqb Pos.eqb]. rewrite poke32_full; [reflexivity|].
    apply (read_ret_full _ _ _ _ Em). lia.
  - intros Hle Hres. destruct Hsp as [[_ ->]|[Hn Hl]].
    + unfold poke32, blit. cbn [app length skipn].
      rewrite firstn_all2 by (rewrite length_le_encode; lia).
      rewrite le_decode_encode_32. apply uint32_small. exact Hres.
    + assert (d = []) by (destruct d; [reflexivity | simpl in Hn; lia]).
      subst d. unfold poke32, blit. cbn [app length skipn].
      rewrite firstn_all2 by (rewrite length_le_encode; lia).
      rewrite le_decode_encode_32. apply uint32_small. exact Hres.
Qed.

Lemma smn_read_value_witness :
  In (Ev (c_read SMN_PATH 4 4) 2 [xaa; xbb]) (events run_smn_read_short)
  /\ le_encode 4 (snd (value run_smn_read_short)) = [xaa; xbb; x22; x11]
  /\ value run_smn_read = (SMU_Return_OK sample_h, 42).
Proof.
  split; [log_run|]. split.
  - apply (smn_read_value _ replay sample_h sample_obj 0x59800 0x11223344
             [r_write (Some 4%nat); r_read (Some [xaa; xbb])]
             4 2 [xaa; xbb]).
    log_run.
  - apply (smn_read_value _ replay sample_h sample_obj 0x59800 77
             [r_write (Some 4%nat); r_read (Some [x2a; x00; x00; x00])]
             4 4 [x2a; x00; x00; x00]);
      [log_run | reflexivity].
Defined.

(** ** Discovery, the other paths *)

(** X8.  When the version file cannot be opened, discovery returns
    [SMU_Return_DriverNotPresent] after that single call and leaves the
    session as it was.  When the codename file cannot be opened, discovery
    returns [SMU_Return_DriverNotPresent] with the codename and the table
    attributes untouched but with [smu_version] already overwritten by the
    version just parsed. *)
Theorem discovery_driver_not_present :
  forall K (kern : kernel K) h obj s,
    let r := smu_init_parse kern h obj s in
    (In (Ev (c_open VERSION_PATH O_RDONLY) (-1) []) (events r) ->
     value r = (SMU_Return_DriverNotPresent h, obj)
     /\ events r = [Ev (c_open VERSION_PATH O_RDONLY) (-1) []])
    /\ (In (Ev (c_open CODENAME_PATH O_RDONLY) (-1) []) (events r) ->
        fst (value r) = SMU_Return_DriverNotPresent h
        /\ codename (snd (value r)) = codename obj
        /\ pm_table_version (snd (value r)) = pm_table_version obj
        /\ pm_table_size (snd (value r)) = pm_table_size obj
        /\ forall maj min rev fd n,
            0 <= maj <= 255 -> 0 <= min <= 255 -> 0 <= rev <= 255 ->
            In (Ev (c_read VERSION_PATH fd MAX_SMU_VERSION_LEN) n
                   (version_text maj min rev)) (events r) ->
            smu_version (snd (value r))
            = maj * 2 ^ 24 + min * 2 ^ 8 + rev).
Proof.
  intros K kern h obj s.
  crunch; split; intros Hin; in_log; try congruence.
  - split; reflexivity.
  - cbn [fst snd codename pm_table_version pm_table_size set_smu_version].
    repeat (split; [reflexivity|]).
    intros maj min rev fd' n' Ha Hb Hc Hin. in_log.
    rewrite c_str_version_text in Esc by assumption.
    unfold version_text in Esc.
    rewrite (sscanf_version_text maj min rev [x0a]) in Esc
      by (assumption || reflexivity).
    inversion Esc; subst.
    cbn [smu_version set_smu_version nth].
    rewrite pack_version by assumption.
    apply (version_fields maj min rev Ha Hb Hc).
Qed.

Lemma discovery_driver_not_present_witness :
  value run_no_driver = (SMU_Return_DriverNotPresent sample_h, sample_obj)
  /\ fst (value run_no_codename) = SMU_Return_DriverNotPresent sample_h
  /\ smu_version (snd (value run_no_codename)) = 0x01000203.
Proof.
  destruct (discovery_driver_not_present _ replay sample_h sample_obj
              [r_open (-1)]) as (Hv & _).
  destruct (discovery_driver_not_present _ replay sample_h sample_obj
              [r_open 3; r_read (Some (version_text 1 2 3)); r_open (-1)])
    as (_ & Hc).
  destruct Hv as (Hv & _); [log_run|].
  destruct Hc as (Hc & _ & _ & _ & Hver); [log_run|].
  split; [exact Hv|]. split; [exact Hc|].
  apply (Hver 1 2 3 3 6); [lia | lia | lia | log_run].
Defined.

Lemma open_succeeded (fd : Z) : fd <> -1 -> (fd =? -1) = false.
Proof. intros H. apply Z.eqb_neq. exact H. Qed.

(** X9.  Discovery leaks no descriptor and touches no channel: the
    descriptors it closes are exactly those its opens returned, in order;
    every open is read-only and on one of the four attribute files; the
    initialisation flag and the four channel descriptors of the session
    are unchanged, whatever discovery returns. *)
Theorem discovery_closes_what_it_opens :
  forall K (kern : kernel K) h obj s,
    let r := smu_init_parse kern h obj s in
    closed_fds (events r) = opened_fds (events r)
    /\ (forall p fl fd d,
           In (Ev (c_open p fl) fd d) (events r) ->
           fl = O_RDONLY /\ is_channel p = false)
    /\ init (snd (value r)) = init obj
    /\ fd_smn (snd (value r)) = fd_smn obj
    /\ fd_smu_cmd (snd (value r)) = fd_smu_cmd obj
    /\ fd_smu_args (snd (value r)) = fd_smu_args obj
    /\ fd_pm_table (snd (value r)) = fd_pm_table obj.
Proof.
  intros K kern h obj s.
  crunch; cbn [closed_fds opened_fds fst snd init fd_smn fd_smu_cmd
               fd_smu_args fd_pm_table set_smu_version set_codename
               set_pm_table_version set_pm_table_size].
  all: repeat match goal with
         | H : ?fd <> -1 |- context [?fd =? -1] =>
             rewrite (open_succeeded fd H)
         | H : ?fd = -1 |- _ => subst fd
         end.
  all: change (-1 =? -1) with true; cbv iota.
  all: split; [reflexivity|].
  all: split; [intros p fl fd' d' Hin; in_log; split; reflexivity|].
  all: repeat split.
Qed.

Lemma strtol10_digits ds rest :
  ds <> [] ->
  forallb isdigit ds = true ->
  match rest with [] => True | b :: _ => isdigit b = false end ->
  strtol10 (ds ++ rest) = clamp_long (digits_val ds).
Proof.
  intros Hne Hds Hrest. destruct ds as [|b ds]; [contradiction|].
  pose proof Hds as Hb. cbn [forallb] in Hb. apply andb_prop in Hb.
  destruct Hb as [Hb _].
  unfold strtol10. cbn [app skip_space].
  rewrite (isdigit_not_space b Hb).
  assert (Hs : take_sign (b :: ds ++ rest) = (false, b :: ds ++ rest)).
  { pose proof (isdigit_not_sign b Hb) as H. unfold take_sign in *.
    destruct (Byte.eqb b "-"); [discriminate H|].
    destruct (Byte.eqb b "+"); [discriminate H|]. reflexivity. }
  rewrite Hs. change (b :: ds ++ rest) with ((b :: ds) ++ rest).
  rewrite (span_digits_app (b :: ds) rest Hds Hrest). reflexivity.
Qed.

Lemma atoi_version_text maj min rev :
  0 <= maj <= 255 -> 0 <= min <= 255 -> 0 <= rev <= 255 ->
  atoi (c_str (blit [] (blit (version_text maj min rev) rd_buf0))) = maj.
Proof.
  intros Ha Hb Hc.
  change (blit [] (blit (version_text maj min rev) rd_buf0))
    with (blit (version_text maj min rev) rd_buf0).
  rewrite c_str_version_text by assumption.
  destruct (decimal_255 maj Ha) as (Na & Da & Va & _).
  unfold atoi, version_text.
  rewrite (strtol10_digits _ _ Na Da) by reflexivity.
  rewrite Va. apply small_int_conv. exact Ha.
Qed.

(** X10.  The codename is parsed from the buffer the version was read
    into.  When the version read delivered ["MAJ.MIN.REV\n"] and the
    codename read delivers no byte, the codename stored is MAJ, and
    discovery returns [SMU_Return_Unsupported] exactly when MAJ is outside
    the sentinels. *)
Theorem discovery_empty_codename_reads_version :
  forall K (kern : kernel K) h obj s maj min rev fdv nv fdc,
    0 <= maj <= 255 -> 0 <= min <= 255 -> 0 <= rev <= 255 ->
    SMU_Return_Unsupported h <> SMU_Return_OK h ->
    SMU_Return_Unsupported h <> SMU_Return_RWError h ->
    let r := smu_init_parse kern h obj s in
    In (Ev (c_read VERSION_PATH fdv MAX_SMU_VERSION_LEN) nv
           (version_text maj min rev)) (events r) ->
    In (Ev (c_read CODENAME_PATH fdc 3) 0 []) (events r) ->
    codename (snd (value r)) = maj
    /\ (fst (value r) = SMU_Return_Unsupported h
        <-> maj <= CODENAME_UNDEFINED h \/ CODENAME_COUNT h <= maj).
Proof.
  intros K kern h obj s maj min rev fdv nv fdc Ha Hb Hc Hd1 Hd2.
  crunch; intros Hv Hcn; in_log; read_facts;
    try (exfalso; rewrite ?sint32_small in * by (rewrite two_31; lia); lia).
  all: cbn [fst snd codename set_codename set_pm_table_version
            set_pm_table_size] in *.
  all: rewrite atoi_version_text in * by assumption.
  all: rewrite (uint32_small maj) in * by (rewrite two_32; lia).
  all: split; [reflexivity|].
  all: split; intros Hr; try reflexivity; try lia; try congruence.
Qed.

Lemma discovery_empty_codename_reads_version_witness :
  In (Ev (c_read CODENAME_PATH 3 3) 0 []) (events run_empty_codename)
  /\ codename (snd (value run_empty_codename)) = 4.
Proof.
  split; [log_run|].
  apply (discovery_empty_codename_reads_version _ replay sample_h
           smu_obj_zero
           [r_open 3; r_read (Some (version_text 4 2 3));
            r_open 3; r_read (Some []); r_open (-1)]
           4 2 3 3 6 3);
    [lia | lia | lia | vm_compute; discriminate | vm_compute; discriminate
    | log_run | log_run].
Defined.

(** ** Initialisation: [smu_init] *)

Lemma for_upto_mutex_init K n i (s : K) :
  for_upto n i (fun j st => (tt, st, [Ev (c_mutex_init j) 0 []])) s
  = (tt, s, log_of c_mutex_init (count_from i n)).
Proof.
  revert i. induction n as [|n IH]; intros i; cbn [for_upto count_from].
  - reflexivity.
  - unfold bind. rewrite IH. reflexivity.
Qed.

Lemma for_upto_mutex_destroy K n i (s : K) :
  for_upto n i (fun j st => (tt, st, [Ev (c_mutex_destroy j) 0 []])) s
  = (tt, s, log_of c_mutex_destroy (count_from i n)).
Proof.
  revert i. induction n as [|n IH]; intros i; cbn [for_upto count_from].
  - reflexivity.
  - unfold bind. rewrite IH. reflexivity.
Qed.

Lemma mutex_inits_log l : mutex_inits (log_of c_mutex_init l) = l.
Proof.
  induction l as [|i l IH]; [reflexivity|].
  change (mutex_inits (log_of c_mutex_init (i :: l)))
    with (i :: mutex_inits (log_of c_mutex_init l)).
  now rewrite IH.
Qed.

Lemma mutex_destroys_log l : mutex_destroys (log_of c_mutex_destroy l) = l.
Proof.
  induction l as [|i l IH]; [reflexivity|].
  change (mutex_destroys (log_of c_mutex_destroy (i :: l)))
    with (i :: mutex_destroys (log_of c_mutex_destroy l)).
  now rewrite IH.
Qed.

Lemma closed_fds_log_destroy l : closed_fds (log_of c_mutex_destroy l) = [].
Proof. induction l as [|i l IH]; [reflexivity | exact IH]. Qed.

Lemma opened_fds_log_destroy l : opened_fds (log_of c_mutex_destroy l) = [].
Proof. induction l as [|i l IH]; [reflexivity | exact IH]. Qed.

Lemma channel_open_results_log_init l :
  channel_open_results (log_of c_mutex_init l) = [].
Proof. induction l as [|i l IH]; [reflexivity | exact IH]. Qed.

Lemma in_log_of c l e : In e (log_of c l) -> exists i, e = Ev (c i) 0 [].
Proof.
  unfold log_of. intros H. apply in_map_iff in H.
  destruct H as (i & <- & _). exists i. reflexivity.
Qed.

(** Case analysis of [smu_init], the loop over the mutexes included. *)
Ltac fold_app :=
  repeat match goal with
  | |- context C [(fix app (l m : list event) {struct l} : list event :=
                     match l with
                     | [] => m
                     | a :: l1 => a :: app l1 m
                     end) ?X ?Y] =>
      let G := context C [X ++ Y] in change G
  end.

Ltac init_cases :=
  crunch_init;
  try (rewrite for_upto_mutex_init; cbv beta iota zeta;
       fold_app; rewrite ?app_nil_r).

(** X11.  [smu_init] marks the session initialised only on full success:
    when it returns [SMU_Return_OK] the flag is 1 and the mutexes
    [0 .. SMU_MUTEX_COUNT-1] were initialised, in that order; when it
    returns anything else the flag is 0 and no mutex was initialised. *)
Theorem init_marks_only_full_success :
  forall K (kern : kernel K) h obj s,
    SMU_Return_DriverNotPresent h <> SMU_Return_OK h ->
    SMU_Return_RWError h <> SMU_Return_OK h ->
    SMU_Return_Unsupported h <> SMU_Return_OK h ->
    let r := smu_init kern h obj s in
    (fst (value r) = SMU_Return_OK h ->
     init (snd (value r)) = 1
     /\ mutex_inits (events r) = upto (SMU_MUTEX_COUNT h))
    /\ (fst (value r) <> SMU_Return_OK h ->
        init (snd (value r)) = 0 /\ mutex_inits (events r) = []).
Proof.
  intros K kern h obj s Hd1 Hd2 Hd3.
  init_cases.
  all: cbn [fst snd init set_init set_fd_smn set_fd_smu_cmd set_fd_smu_args
            set_fd_pm_table set_pm_table_size set_pm_table_version
            set_codename set_smu_version smu_obj_zero mutex_inits].
  all: rewrite ?mutex_inits_log.
  all: split; intros Hr; try congruence; split; reflexivity.
Qed.

Lemma init_marks_only_full_success_witness :
  init (snd (value run_init_no_table)) = 1
  /\ mutex_inits (events run_init_no_table) = [0; 1; 2]
  /\ init (snd (value run_init_no_cmd)) = 0
  /\ mutex_inits (events run_init_no_cmd) = [].
Proof.
  destruct (init_marks_only_full_success _ replay sample_h smu_obj_zero
              script_init_no_table) as (Hok & _);
    [vm_compute; discriminate | vm_compute; discriminate
    | vm_compute; discriminate |].
  destruct (init_marks_only_full_success _ replay sample_h smu_obj_zero
              [r_open 3; r_read (Some (version_text 1 2 3));
               r_open 3; r_read (Some codename_04);
               r_open (-1); r_open 4; r_open (-1)]) as (_ & Hfail);
    [vm_compute; discriminate | vm_compute; discriminate
    | vm_compute; discriminate |].
  destruct Hok as (H1 & H2); [vm_compute; reflexivity|].
  destruct Hfail as (H3 & H4); [vm_compute; discriminate|].
  split; [exact H1|]. split; [exact H2|]. split; [exact H3 | exact H4].
Defined.

Ltac in_log' :=
  in_log;
  try match goal with
      | H : In _ (log_of _ _) |- _ =>
          apply in_log_of in H; destruct H as [? H]; discriminate H
      end.

(** X12.  [smu_init] stores in the session what each channel open
    returned, failure included: after a failed open the descriptor field of
    that channel holds -1, the result is [SMU_Return_RWError] and the
    session is not marked initialised.  The register, command and argument
    channels are opened read-write, the table channel read-only. *)
Theorem init_stores_descriptors :
  forall K (kern : kernel K) h obj s p fl fd d,
    SMU_Return_RWError h <> SMU_Return_OK h ->
    let r := smu_init kern h obj s in
    In (Ev (c_open p fl) fd d) (events r) ->
    is_channel p = true ->
    channel_fd p (snd (value r)) = fd
    /\ fl = (match p with PM_PATH => O_RDONLY | _ => O_RDWR end)
    /\ (fd = -1 ->
        fst (value r) = SMU_Return_RWError h /\ init (snd (value r)) = 0).
Proof.
  intros K kern h obj s p fl fd d Hd.
  init_cases; intros Hin Hch; in_log'; try discriminate Hch.
  all: cbn [fst snd init channel_fd fd_smn fd_smu_cmd fd_smu_args fd_pm_table
            set_init set_fd_smn set_fd_smu_cmd set_fd_smu_args
            set_fd_pm_table].
  all: split; [reflexivity|]; split; [reflexivity|].
  all: intros Hfail; try contradiction; try (split; reflexivity).
Qed.

Lemma init_stores_descriptors_witness :
  In (Ev (c_open SMU_CMD_PATH O_RDWR) (-1) []) (events run_init_no_cmd)
  /\ fd_smu_cmd (snd (value run_init_no_cmd)) = -1
  /\ fst (value run_init_no_cmd) = SMU_Return_RWError sample_h.
Proof.
  split; [log_run|].
  destruct (init_stores_descriptors _ replay sample_h smu_obj_zero
              [r_open 3; r_read (Some (version_text 1 2 3));
               r_open 3; r_read (Some codename_04);
               r_open (-1); r_open 4; r_open (-1)]
              SMU_CMD_PATH O_RDWR (-1) [])
    as (Hfd & _ & Hfail);
    [vm_compute; discriminate | log_run | reflexivity |].
  split; [exact Hfd|]. apply Hfail. reflexivity.
Defined.

Lemma opened_paths_log_init l : opened_paths (log_of c_mutex_init l) = [].
Proof. induction l as [|i l IH]; [reflexivity | exact IH]. Qed.

(** X13.  When [smu_init] returns [SMU_Return_OK], the table channel file
    was opened exactly when [pm_table_size] and [pm_table_version] are both
    non-zero; when it was not opened, [fd_pm_table] is 0. *)
Theorem init_table_channel_iff_supported :
  forall K (kern : kernel K) h obj s,
    SMU_Return_DriverNotPresent h <> SMU_Return_OK h ->
    SMU_Return_RWError h <> SMU_Return_OK h ->
    SMU_Return_Unsupported h <> SMU_Return_OK h ->
    let r := smu_init kern h obj s in
    fst (value r) = SMU_Return_OK h ->
    (In PM_PATH (opened_paths (events r))
     <-> pm_table_size (snd (value r)) <> 0
         /\ pm_table_version (snd (value r)) <> 0)
    /\ (~ In PM_PATH (opened_paths (events r)) ->
        fd_pm_table (snd (value r)) = 0).
Proof.
  intros K kern h obj s Hd1 Hd2 Hd3.
  init_cases; intros Hok; try congruence.
  all: cbn [fst snd opened_paths pm_table_size pm_table_version fd_pm_table
            set_init set_fd_smn set_fd_smu_cmd set_fd_smu_args
            set_fd_pm_table set_pm_table_size set_pm_table_version
            set_codename set_smu_version smu_obj_zero] in *.
  all: rewrite ?opened_paths_log_init.
  all: repeat match goal with
         | H : context [Z.eqb ?a ?b] |- _ =>
             destruct (Z.eqb_spec a b); cbn [negb andb] in H;
             try discriminate H
         end.
  all: split; [split|].
  all: try (intros Hin; simpl in Hin;
            first [ split; assumption
                  | exfalso; intuition discriminate ]).
  all: try (intros [HA HB];
            first [ simpl; tauto | congruence ]).
  all: intros Hn; first [ reflexivity | exfalso; apply Hn; simpl; tauto ].
Qed.

Lemma init_table_channel_iff_supported_witness :
  fst (value run_init_with_table) = SMU_Return_OK sample_h
  /\ In PM_PATH (opened_paths (events run_init_with_table))
  /\ fd_pm_table (snd (value run_init_no_table)) = 0.
Proof.
  assert (Hok : fst (value run_init_with_table) = SMU_Return_OK sample_h)
    by (vm_compute; reflexivity).
  split; [exact Hok|].
  destruct (init_table_channel_iff_supported _ replay sample_h smu_obj_zero
              (script_short_reads ++ [r_open 4; r_open 5; r_open 6; r_open 7]))
    as (Hiff & _);
    [vm_compute; discriminate | vm_compute; discriminate
    | vm_compute; discriminate | exact Hok |].
  destruct (init_table_channel_iff_supported _ replay sample_h smu_obj_zero
              script_init_no_table)
    as (_ & Hzero);
    [vm_compute; discriminate | vm_compute; discriminate
    | vm_compute; discriminate | vm_compute; reflexivity |].
  split.
  - apply Hiff. split; vm_compute; discriminate.
  - apply Hzero. vm_compute. intuition discriminate.
Defined.

(** X14.  [smu_init] opens a channel file only after discovery on the
    zeroed session returned [SMU_Return_OK], and then the session keeps the
    version, the codename and the table attributes discovery found. *)
Theorem init_opens_channels_after_discovery :
  forall K (kern : kernel K) h obj s p,
    let rp := smu_init_parse kern h smu_obj_zero s in
    let r := smu_init kern h obj s in
    In p (opened_paths (events r)) ->
    is_channel p = true ->
    fst (value rp) = SMU_Return_OK h
    /\ smu_version (snd (value r)) = smu_version (snd (value rp))
    /\ codename (snd (value r)) = codename (snd (value rp))
    /\ pm_table_version (snd (value r)) = pm_table_version (snd (value rp))
    /\ pm_table_size (snd (value r)) = pm_table_size (snd (value rp)).
Proof.
  intros K kern h obj s p.
  init_cases; cbn [opened_paths]; rewrite ?opened_paths_log_init;
    intros Hin Hch; simpl in Hin;
    repeat (destruct Hin as [<- | Hin]; try discriminate Hch);
    try contradiction.
  all: repeat split; try assumption; try reflexivity.
Qed.

Lemma init_opens_channels_after_discovery_witness :
  In SMN_PATH (opened_paths (events run_init_no_table))
  /\ fst (value (smu_init_parse replay sample_h smu_obj_zero
                   script_init_no_table))
     = SMU_Return_OK sample_h.
Proof.
  assert (Hin : In SMN_PATH (opened_paths (events run_init_no_table)))
    by (vm_compute; tauto).
  split; [exact Hin|].
  apply (init_opens_channels_after_discovery _ replay sample_h smu_obj_zero
           script_init_no_table SMN_PATH);
    [exact Hin | reflexivity].
Defined.

(** ** Teardown: [smu_free] *)

Lemma smu_free_run K (kern : kernel K) h obj s :
  value (smu_free kern h obj s) = smu_obj_zero
  /\ closed_fds (events (smu_free kern h obj s)) = set_fds obj
  /\ mutex_destroys (events (smu_free kern h obj s))
     = upto (SMU_MUTEX_COUNT h)
  /\ opened_fds (events (smu_free kern h obj s)) = [].
Proof.
  unfold smu_free, close_if_set, set_fds, upto, mutex_destroy.
  cbn [filter].
  destruct (fd_smn obj =? 0), (fd_smu_cmd obj =? 0),
    (fd_smu_args obj =? 0), (fd_pm_table obj =? 0);
    cbv beta iota zeta delta [bind ret sys_close value events fst snd negb];
    rewrite for_upto_mutex_destroy; cbv beta iota zeta;
    cbn [app closed_fds mutex_destroys opened_fds];
    rewrite ?app_nil_r, closed_fds_log_destroy, mutex_destroys_log,
      opened_fds_log_destroy;
    repeat split.
Qed.

(** X15.  [smu_free] returns the zeroed session; it closes the non-zero
    descriptor fields, in the order register, command, argument, table,
    and never a field that is 0; it destroys the mutexes
    [0 .. SMU_MUTEX_COUNT-1] in that order. *)
Theorem free_releases_session :
  forall K (kern : kernel K) h obj s,
    let r := smu_free kern h obj s in
    value r = smu_obj_zero
    /\ closed_fds (events r) = set_fds obj
    /\ mutex_destroys (events r) = upto (SMU_MUTEX_COUNT h)
    /\ (forall fd, In fd (closed_fds (events r)) -> fd <> 0).
Proof.
  intros K kern h obj s. cbv zeta.
  destruct (smu_free_run K kern h obj s) as (Hv & Hc & Hm & _).
  repeat (split; [assumption|]).
  intros fd Hin. rewrite Hc in Hin. unfold set_fds in Hin.
  apply filter_In in Hin. destruct Hin as [_ Hnz].
  apply negb_true_iff, Z.eqb_neq in Hnz. exact Hnz.
Qed.

Lemma init_set_fds K (kern : kernel K) h obj s :
  set_fds (snd (value (smu_init kern h obj s)))
  = filter (fun fd => negb (fd =? 0))
      (channel_open_results (events (smu_init kern h obj s))).
Proof.
  init_cases.
  all: unfold set_fds.
  all: cbn [fst snd fd_smn fd_smu_cmd fd_smu_args fd_pm_table
            set_init set_fd_smn set_fd_smu_cmd set_fd_smu_args
            set_fd_pm_table set_pm_table_size set_pm_table_version
            set_codename set_smu_version smu_obj_zero
            channel_open_results is_channel].
  all: rewrite ?channel_open_results_log_init.
  all: cbn [filter]; change (0 =? 0) with true; cbn [negb].
  all: reflexivity.
Qed.

(** X16.  [smu_free] after [smu_init], whatever [smu_init] returned:
    the descriptors closed are what the channel opens returned, without
    those that are 0.  So the -1 of a failed open is passed to [close], and
    a channel that was opened on descriptor 0 is not closed. *)
Theorem free_after_init :
  forall K (kern : kernel K) h obj s,
    let ri := smu_init kern h obj s in
    let rf := smu_free kern h (snd (value ri)) (final ri) in
    closed_fds (events rf)
    = filter (fun fd => negb (fd =? 0)) (channel_open_results (events ri))
    /\ (In (-1) (channel_open_results (events ri)) ->
        In (-1) (closed_fds (events rf)))
    /\ ~ In 0 (closed_fds (events rf)).
Proof.
  intros K kern h obj s. cbv zeta.
  destruct (smu_free_run K kern h (snd (value (smu_init kern h obj s)))
              (final (smu_init kern h obj s))) as (_ & Hc & _).
  rewrite Hc, init_set_fds. split; [reflexivity|]. split.
  - intros Hin. apply filter_In. split; [exact Hin | reflexivity].
  - intros Hin. apply filter_In in Hin. destruct Hin as [_ Hnz].
    discriminate Hnz.
Qed.

(** ** The naming functions *)

Lemma c_switch_default {A} (cases : list (Z * A)) (d : A) (v : Z) :
  ~ In v (map fst cases) -> c_switch cases d v = d.
Proof.
  intros Hn. unfold c_switch.
  destruct (find (fun c => fst c =? v) cases) as [c|] eqn:E; [|reflexivity].
  apply find_some in E. destruct E as [Hin Heq].
  apply Z.eqb_eq in Heq. exfalso. apply Hn. rewrite <- Heq.
  apply in_map. exact Hin.
Qed.

Lemma c_switch_case {A} (cases : list (Z * A)) (d : A) (k : Z) (a : A) :
  NoDup (map fst cases) -> In (k, a) cases -> c_switch cases d k = a.
Proof.
  unfold c_switch. induction cases as [|[k' a'] cases IH]; intros Hnd Hin.
  - destruct Hin.
  - cbn [find fst]. inversion Hnd as [|? ? Hnotin Hnd']; subst.
    destruct (Z.eqb_spec k' k) as [->|Hne].
    + destruct Hin as [E|Hin]; [inversion E; reflexivity|].
      exfalso. apply Hnotin. change k with (fst (k, a)).
      apply in_map. exact Hin.
    + destruct Hin as [E|Hin]; [inversion E; contradiction|].
      apply IH; assumption.
Qed.

Lemma value_determines_key {A} (cases : list (Z * A)) k1 k2 a :
  NoDup (map snd cases) -> In (k1, a) cases -> In (k2, a) cases -> k1 = k2.
Proof.
  induction cases as [|[k' a'] cases IH]; intros Hnd H1 H2; [destruct H1|].
  inversion Hnd as [|? ? Hnotin Hnd']; subst.
  destruct H1 as [E1|H1], H2 as [E2|H2].
  - congruence.
  - inversion E1; subst. exfalso. apply Hnotin.
    change a with (snd (k2, a)). apply in_map. exact H2.
  - inversion E2; subst. exfalso. apply Hnotin.
    change a with (snd (k1, a)). apply in_map. exact H1.
  - apply IH; assumption.
Qed.

Lemma c_switch_names {A} (cases : list (Z * A)) (d : A) :
  NoDup (map fst cases) ->
  NoDup (map snd cases) ->
  ~ In d (map snd cases) ->
  (forall v, ~ In v (map fst cases) -> c_switch cases d v = d)
  /\ (forall v w,
         In v (map fst cases) -> In w (map fst cases) ->
         c_switch cases d v = c_switch cases d w -> v = w)
  /\ (forall v, In v (map fst cases) -> c_switch cases d v <> d).
Proof.
  intros Hk Hv Hd. split; [intros v; apply c_switch_default|].
  assert (Hcase : forall v, In v (map fst cases) ->
                    exists a, In (v, a) cases /\ c_switch cases d v = a).
  { intros v Hin. apply in_map_iff in Hin. destruct Hin as ([k a] & <- & Hin).
    exists a. split; [exact Hin|]. apply c_switch_case; assumption. }
  split.
  - intros v w Hv' Hw' E.
    destruct (Hcase v Hv') as (a & Ha & Ea).
    destruct (Hcase w Hw') as (b & Hb & Eb).
    rewrite Ea, Eb in E. subst b.
    apply (value_determines_key cases v w a); assumption.
  - intros v Hv' E. destruct (Hcase v Hv') as (a & Ha & Ea).
    apply Hd. rewrite <- E, Ea. change a with (snd (v, a)).
    apply in_map. exact Ha.
Qed.

Ltac distinct_names :=
  repeat (constructor; [cbn; intuition discriminate|]); constructor.

Lemma return_names_distinct h e :
  NoDup (map snd (return_cases h e))
  /\ ~ In return_default (map snd (return_cases h e)).
Proof. split; [distinct_names | cbn; intuition discriminate]. Qed.

Lemma codename_names_distinct e :
  NoDup (map snd (codename_cases e))
  /\ ~ In codename_default (map snd (codename_cases e)).
Proof. split; [distinct_names | cbn; intuition discriminate]. Qed.

(** X17.  With pairwise distinct enumerators (the [case] labels of one
    [switch]), [smu_return_to_str] gives the default text for every value
    that is not an enumerator, a text other than the default for every
    enumerator, and different texts for different enumerators. *)
Theorem return_names :
  forall h e,
    NoDup (map fst (return_cases h e)) ->
    (forall v,
        ~ In v (map fst (return_cases h e)) ->
        smu_return_to_str h e v = return_default)
    /\ (forall v w,
           In v (map fst (return_cases h e)) ->
           In w (map fst (return_cases h e)) ->
           smu_return_to_str h e v = smu_return_to_str h e w -> v = w)
    /\ (forall v,
           In v (map fst (return_cases h e)) ->
           smu_return_to_str h e v <> return_default).
Proof.
  intros h e Hk. destruct (return_names_distinct h e) as [Hv Hd].
  apply c_switch_names; assumption.
Qed.

Lemma return_names_witness :
  NoDup (map fst (return_cases sample_h sample_names))
  /\ smu_return_to_str sample_h sample_names 0 = return_default
  /\ smu_return_to_str sample_h sample_names (SMU_Return_RWError sample_h)
     <> return_default.
Proof.
  assert (Hk : NoDup (map fst (return_cases sample_h sample_names)))
    by distinct_names.
  split; [exact Hk|].
  destruct (return_names sample_h sample_names Hk) as (Hdef & _ & Hnot).
  split.
  - apply Hdef. cbn. intuition discriminate.
  - apply Hnot. cbn. tauto.
Defined.

(** X18.  With pairwise distinct enumerators, [smu_codename_to_str] gives
    the default name for every codename that is not one of the ten
    families, a name other than the default for each family, and
    different names for different families. *)
Theorem codename_names :
  forall e,
    NoDup (map fst (codename_cases e)) ->
    (forall obj,
        ~ In (codename obj) (map fst (codename_cases e)) ->
        smu_codename_to_str e obj = codename_default)
    /\ (forall obj obj',
           In (codename obj) (map fst (codename_cases e)) ->
           In (codename obj') (map fst (codename_cases e)) ->
           smu_codename_to_str e obj = smu_codename_to_str e obj' ->
           codename obj = codename obj')
    /\ (forall obj,
           In (codename obj) (map fst (codename_cases e)) ->
           smu_codename_to_str e obj <> codename_default).
Proof.
  intros e Hk. destruct (codename_names_distinct e) as [Hv Hd].
  destruct (c_switch_names (codename_cases e) codename_default Hk Hv Hd)
    as (H1 & H2 & H3).
  unfold smu_codename_to_str.
  split; [intros obj; apply H1|].
  split; [intros obj obj'; apply H2 | intros obj; apply H3].
Qed.

Lemma codename_names_witness :
  NoDup (map fst (codename_cases sample_names))
  /\ smu_codename_to_str sample_names smu_obj_zero = codename_default
  /\ smu_codename_to_str sample_names sample_obj <> codename_default.
Proof.
  assert (Hk : NoDup (map fst (codename_cases sample_names)))
    by distinct_names.
  split; [exact Hk|].
  destruct (codename_names sample_names Hk) as (Hdef & _ & Hnot).
  split.
  - apply Hdef. cbn. intuition discriminate.
  - apply Hnot. cbn. tauto.
Defined.

(** ** Register write then read against the loop-back driver *)

(** X19.  Against the loop-back driver, a register write of a 32-bit
    value to a 32-bit address followed by a register read of the same
    address returns [SMU_Return_OK] twice and delivers the value written:
    the two operations agree on the byte order and on the position of the
    address. *)
Theorem smn_loopback_round_trip :
  forall h obj address val result s,
    0 <= address < 2 ^ 32 ->
    0 <= val < 2 ^ 32 ->
    let rw := smu_write_smn_addr loopback h obj address val s in
    let rr := smu_read_smn_addr loopback h obj address result (final rw) in
    value rw = SMU_Return_OK h
    /\ value rr = (SMU_Return_OK h, val).
Proof.
  intros h obj address val result s Ha Hv.
  cbv beta iota zeta delta
    [smu_write_smn_addr smu_read_smn_addr sys_lseek sys_write sys_read
     mutex_lock mutex_unlock bind ret value final events fst snd
     loopback k_write k_read k_lseek negb].
  change (length (le_encode 4 address ++ le_encode 4 val)) with 8%nat.
  change (length (le_encode 4 address)) with 4%nat.
  cbn [Nat.eqb write_ret Nat.min read_ret].
  change (uint32 (Z.of_nat 8) =? 8) with true.
  change (uint32 (Z.of_nat 4) =? 4) with true.
  cbv iota. split; [reflexivity|].
  cbn [smn_select smn_store selected regs].
  rewrite firstn_le_encode_app, skipn_le_encode_app, !le_decode_encode_32.
  rewrite !(uint32_small address), (uint32_small val) by assumption.
  rewrite Z.eqb_refl.
  change (Z.to_nat 4) with 4%nat.
  rewrite firstn_all2 by (rewrite length_le_encode; lia).
  rewrite Z.eqb_refl.
  rewrite poke32_full by apply length_le_encode.
  rewrite le_decode_encode_32, uint32_small by assumption. reflexivity.
Qed.

Lemma smn_loopback_round_trip_witness :
  value run_loopback_write = SMU_Return_OK sample_h
  /\ value run_loopback_read = (SMU_Return_OK sample_h, 42).
Proof.
  apply (smn_loopback_round_trip sample_h sample_obj 0x59800 42 77
           smn_state0);
    change (2 ^ 32) with 4294967296; lia.
Defined.
